(** * yidcal-data: the yahrtzeit scraper ([scraper.py])

    A shallow embedding of the text-processing core of [scraper.py]:
    the numeral decoder [hebrew_to_int], the diacritic normalizer
    [remove_nikud], the month table [month_map], the line scanner inside
    [fetch_forum_page] and the aggregation and de-duplication of [main].

    Python strings are sequences of Unicode code points, so a [str] is a
    list of code points ([N]); [len], slicing, [in], [startswith],
    [replace], [split] and [strip] are written out over that list.
    Python integers are unbounded and are modelled by [Z].  Dictionaries
    whose iteration order matters ([month_map], sorted by key length with a
    stable sort) are association lists; the record dictionaries
    [local_yahrtzeits] and [data] are [gmap]s. *)

From stdpp Require Import gmap list strings pretty.
From Stdlib Require Import ZArith NArith Lia Sorted.
From Stdlib Require Ascii String.

Local Open Scope N_scope.

(** ** Strings as code points *)

Definition char := N.
Definition str := list N.

(** String literals of the source are written as UTF-8 text and decoded to
    code points. *)
Fixpoint utf8_decode (bs : list N) : str :=
  match bs with
  | [] => []
  | b0 :: t0 =>
    if b0 <? 128 then b0 :: utf8_decode t0
    else match t0 with
    | [] => []
    | b1 :: t1 =>
      if b0 <? 224 then ((b0 - 192) * 64 + (b1 - 128)) :: utf8_decode t1
      else match t1 with
      | [] => []
      | b2 :: t2 =>
        if b0 <? 240
        then ((b0 - 224) * 4096 + (b1 - 128) * 64 + (b2 - 128)) :: utf8_decode t2
        else match t2 with
        | [] => []
        | b3 :: t3 =>
          ((b0 - 240) * 262144 + (b1 - 128) * 4096 + (b2 - 128) * 64 + (b3 - 128))
            :: utf8_decode t3
        end
      end
    end
  end.

Definition py (s : string) : str :=
  utf8_decode (map Ascii.N_of_ascii (String.list_ascii_of_string s)).

(** A one-character literal. *)
Definition ch (s : string) : char := default 0 (head (py s)).

Definition APOSTROPHE : char := 39.    (* ' *)
Definition QUOTE : char := 34.         (* the double quote *)
Definition BACKSLASH : char := 92.
Definition SPACE : char := 32.
Definition NEWLINE : char := 10.
Definition QUESTION : char := 63.

(** ** Python string operations *)

Definition str_eqb (a b : str) : bool := bool_decide (a = b).

(** [s.startswith(p)] *)
Fixpoint startswith (s p : str) {struct p} : bool :=
  match p, s with
  | [], _ => true
  | _ :: _, [] => false
  | a :: p', b :: s' => (a =? b) && startswith s' p'
  end.

(** [sub in s] *)
Fixpoint str_in (sub s : str) : bool :=
  startswith s sub ||
  match s with
  | [] => false
  | _ :: t => str_in sub t
  end.

(** [c in letters] for a single character [c] *)
Definition char_in (c : char) (letters : str) : bool :=
  existsb (N.eqb c) letters.

(** [s.replace(old, new)]: occurrences of [old] are found from left to
    right and do not overlap.  [skip] counts the characters of an
    occurrence that are still to be dropped.  An empty [old] puts [new]
    before, between and after the characters. *)
Fixpoint replace_from (old new : str) (skip : nat) (s : str) : str :=
  match s with
  | [] => []
  | c :: t =>
    match skip with
    | S k => replace_from old new k t
    | O =>
      if startswith s old
      then new ++ replace_from old new (pred (length old)) t
      else c :: replace_from old new 0 t
    end
  end.

Definition replace (s old new : str) : str :=
  match old with
  | [] => new ++ flat_map (fun c => c :: new) s
  | _ :: _ => replace_from old new 0 s
  end.

(** [s.split(sep)] for a non-empty separator; [cur] is the piece being
    read, in reverse. *)
Fixpoint split_from (sep : str) (skip : nat) (cur : str) (s : str) : list str :=
  match s with
  | [] => [rev cur]
  | c :: t =>
    match skip with
    | S k => split_from sep k cur t
    | O =>
      if startswith s sep
      then rev cur :: split_from sep (pred (length sep)) [] t
      else split_from sep 0 (c :: cur) t
    end
  end.

Definition split (s sep : str) : list str := split_from sep 0 [] s.

(** [str.isspace] on one character: the code points Python treats as
    white space. *)
Definition isspace (c : char) : bool :=
  ((9 <=? c) && (c <=? 13)) || ((28 <=? c) && (c <=? 32)) ||
  (c =? 133) || (c =? 160) || (c =? 5760) ||
  ((8192 <=? c) && (c <=? 8202)) || (c =? 8232) || (c =? 8233) ||
  (c =? 8239) || (c =? 8287) || (c =? 12288).

Fixpoint lstrip (s : str) : str :=
  match s with
  | [] => []
  | c :: t => if isspace c then lstrip t else s
  end.

Definition rstrip (s : str) : str := rev (lstrip (rev s)).

(** [s.strip()] *)
Definition strip (s : str) : str := rstrip (lstrip s).

(** Truth value of a string: [if s] / [if not s]. *)
Definition truthy_str (s : str) : bool :=
  match s with [] => false | _ => true end.

(** ** Exceptions

    [exn] lists the instances of class [Exception] that occur: a
    [ValueError], which line 98 would catch; the [AttributeError] of
    lines 64 and 131; and [ClientError] for what [aiohttp] raises on a
    failed request, [asyncio.TimeoutError] included.  Line 119 catches
    each of them, and [isinstance(result, Exception)] (line 130) holds of
    each. *)

Inductive exn := ValueError | AttributeError | ClientError.



Inductive result (A : Type) :=
| Ok (a : A)
| Raise (e : exn).
Arguments Ok {A} a.
Arguments Raise {A} e.

(** ** [hebrew_to_int] *)

Local Open Scope Z_scope.

Definition letters : list (char * Z) :=
  Eval vm_compute in
  [ (ch "א", 1); (ch "ב", 2); (ch "ג", 3); (ch "ד", 4); (ch "ה", 5);
    (ch "ו", 6); (ch "ז", 7); (ch "ח", 8); (ch "ט", 9); (ch "י", 10);
    (ch "כ", 20); (ch "ל", 30); (ch "מ", 40); (ch "נ", 50); (ch "ס", 60);
    (ch "ע", 70); (ch "פ", 80); (ch "צ", 90);
    (ch "ק", 100); (ch "ר", 200); (ch "ש", 300); (ch "ת", 400) ].

(** [d.get(k, default)] on a dictionary written as a literal. *)
Fixpoint dict_get {K V : Type} `{EqDecision K} (d : list (K * V)) (k : K) (default : V) : V :=
  match d with
  | [] => default
  | (k', v) :: d' => if decide (k' = k) then v else dict_get d' k default
  end.

Definition hebrew_to_int (hebrew : str) : result Z :=
  if negb (truthy_str hebrew) then Ok 0
  else
    let hebrew := replace (replace hebrew [APOSTROPHE] []) [QUOTE] [] in
    Ok (fold_left (fun value letter => value + dict_get letters letter 0) hebrew 0).

(** ** [remove_nikud]

    [unicodedata] is Python's view of the Unicode Character Database.  The
    three properties the function reads are taken as a parameter:
    the full canonical decomposition of a character (the character itself
    when it has none), its canonical combining class
    ([unicodedata.combining]) and whether its general category is [Mn]. *)

Record UnicodeData := {
  decomposition : char → str;
  combining : char → N;
  category_Mn : char → bool;
}.

Section Normalizer.
Variable db : UnicodeData.

Local Open Scope N_scope.

(** Canonical ordering (UAX 15): a character of non-zero class moves left
    past the characters of greater class before it; a character of class
    zero never moves and is never passed.  [racc] is the output so far,
    in reverse. *)
Fixpoint insert_mark (c : char) (racc : str) : str :=
  match racc with
  | [] => [c]
  | p :: r =>
    if combining db c <? combining db p then p :: insert_mark c r
    else c :: racc
  end.

Definition reorder_step (racc : str) (c : char) : str :=
  if combining db c =? 0 then c :: racc else insert_mark c racc.

Definition canonical_order (s : str) : str :=
  rev (fold_left reorder_step s []).

(** [unicodedata.normalize('NFD', s)] *)
Definition normalize_NFD (s : str) : str :=
  canonical_order (flat_map (decomposition db) s).

Definition remove_nikud (text : str) : str :=
  List.filter (fun c => negb (category_Mn db c)) (normalize_NFD text).
End Normalizer.

(** The lines of UnicodeData.txt for the marked characters used in this
    development: code point, whether the category is [Mn], combining
    class.  They are the Hebrew points U+05B0..U+05C7, the combining
    grapheme joiner U+034F and the musical symbols U+1D165 (combining
    stem) and U+1D16D (combining augmentation dot), both of category
    [Mc]. *)
Definition ucd_rows : list (char * (bool * N)) :=
  [ (0x05B0, (true, 10)); (0x05B1, (true, 11)); (0x05B2, (true, 12));
    (0x05B3, (true, 13)); (0x05B4, (true, 14)); (0x05B5, (true, 15));
    (0x05B6, (true, 16)); (0x05B7, (true, 17)); (0x05B8, (true, 18));
    (0x05B9, (true, 19)); (0x05BA, (true, 19)); (0x05BB, (true, 20));
    (0x05BC, (true, 21)); (0x05BD, (true, 22)); (0x05BF, (true, 23));
    (0x05C1, (true, 24)); (0x05C2, (true, 25)); (0x05C4, (true, 230));
    (0x05C5, (true, 220)); (0x05C7, (true, 18));
    (0x034F, (true, 0));
    (0x1D165, (false, 216)); (0x1D16D, (false, 226)) ]%N.

(** The database restricted to those rows; any other code point is read as
    an unmarked character without decomposition, which is what the
    database says of ASCII and of the Hebrew letters U+05D0..U+05EA. *)
Definition ucd_excerpt : UnicodeData := {|
  decomposition c := [c];
  combining c := (dict_get ucd_rows c (false, 0%N)).2;
  category_Mn c := (dict_get ucd_rows c (false, 0%N)).1;
|}.

(** ** [month_map] *)

Definition month_map : list (str * Z) :=
  Eval vm_compute in
  [ (py "ניסן", 1);
    (py "אייר", 2);
    (py "סיון", 3);
    (py "תמוז", 4);
    (py "אב", 5);
    (py "מנחם אב", 5);
    (py "מנ" ++ [QUOTE] ++ py "א", 5);
    (py "אלול", 6);
    (py "תשרי", 7);
    (py "חשון", 8);
    (py "מרחשון", 8);
    (py "כסלו", 9);
    (py "טבת", 10);
    (py "שבט", 11);
    (py "אדר", 12);
    (py "אדר א'", 12);
    (py "אדר ב'", 13) ].

(** [d.get(k)] and [d.keys()] on a dictionary literal. *)
Fixpoint dict_lookup {K V : Type} `{EqDecision K} (d : list (K * V)) (k : K) : option V :=
  match d with
  | [] => None
  | (k', v) :: d' => if decide (k' = k) then Some v else dict_lookup d' k
  end.

Definition dict_keys {K V : Type} (d : list (K * V)) : list K := map fst d.

(** [sorted(keys, key=len, reverse=True)]: the sort is stable, also with
    [reverse=True], so keys of equal length keep the order of the table. *)
Fixpoint insert_by_len (x : str) (l : list str) : list str :=
  match l with
  | [] => [x]
  | y :: l' =>
    if (length x <? length y)%nat then y :: insert_by_len x l' else x :: l
  end.

Definition sorted_len_reverse (l : list str) : list str :=
  fold_right insert_by_len [] l.

(** ** The scan of [fetch_forum_page] *)

Record entry := { text : str; adar_pref : option Z }.

Global Instance entry_eq_dec : EqDecision entry.
Proof. solve_decision. Defined.

(** A key is the tuple [(current_month, current_day)]. *)
Definition key : Type := option Z * Z.

(** The variables of the scan: the three loop variables and the dictionary
    [local_yahrtzeits], which is updated in place. *)
Record env := {
  current_day : option Z;
  current_month : option Z;
  default_pref : option Z;
  local_yahrtzeits : gmap (option Z * Z) (list entry);
}.

Definition set_day (d : option Z) (σ : env) : env :=
  {| current_day := d; current_month := current_month σ;
     default_pref := default_pref σ; local_yahrtzeits := local_yahrtzeits σ |}.

Definition set_month (m : option Z) (p : option Z) (σ : env) : env :=
  {| current_day := current_day σ; current_month := m;
     default_pref := p; local_yahrtzeits := local_yahrtzeits σ |}.

Definition set_local (y : gmap (option Z * Z) (list entry)) (σ : env) : env :=
  {| current_day := current_day σ; current_month := current_month σ;
     default_pref := default_pref σ; local_yahrtzeits := y |}.

(** Statements run on the variables and either complete or raise; what was
    written to the variables before an exception stays written. *)
Definition M (A : Type) : Type := env → env * result A.

Definition ret {A} (a : A) : M A := fun σ => (σ, Ok a).
Definition raise {A} (e : exn) : M A := fun σ => (σ, Raise e).
Definition bind {A B} (m : M A) (k : A → M B) : M B :=
  fun σ => match m σ with
           | (σ', Ok a) => k a σ'
           | (σ', Raise e) => (σ', Raise e)
           end.

Notation "'do' x <- m ; k" := (bind m (fun x => k))
  (at level 10, x pattern, m at level 100, k at level 200).

(** [for x in l: body x] *)
Fixpoint for_each {A} (body : A → M unit) (l : list A) : M unit :=
  match l with
  | [] => ret tt
  | x :: l' => do _ <- body x; for_each body l'
  end.

(** Which arm of the [if]/[elif] chain a line took. *)
Inductive branch :=
| HeaderNoMonthText      (* [if not month_text], lines 79-81 *)
| HeaderNoMonth          (* [if current_month is None], lines 83-85 *)
| HeaderDecodeError      (* [except ValueError], lines 98-100 *)
| HeaderSet              (* the header was taken, line 97 *)
| NameEmitted (k : key) (e : entry)   (* lines 102-115 *)
| Connector              (* lines 116-117 *)
| NoMatch.

Definition NUMERAL_LETTERS : str := Eval vm_compute in py "אבגדהוזחטיכל".
Definition RABBI : str := Eval vm_compute in py "רבי ".
Definition ADAR_A : str := Eval vm_compute in py "אדר א'".
Definition ADAR_B : str := Eval vm_compute in py "אדר ב'".
Definition MARK_A : str := Eval vm_compute in py "(א)".
Definition MARK_B : str := Eval vm_compute in py "(ב)".
Definition QQ : str := [QUESTION; QUESTION].

Definition name_prefixes : list str :=
  Eval vm_compute in
  [ py "רבי "; py "יששכר "; py "השר "; py "שמעון "; py "??רבי "; py "?רבי ";
    py "משה "; py "רבינו " ].

Definition connectors : list str :=
  Eval vm_compute in [ py "ובנו"; py "וחתנו" ].

(** Truth value of [current_day]: neither [None] nor [0]. *)
Definition truthy_day (d : option Z) : bool :=
  match d with
  | Some v => negb (v =? 0)
  | None => false
  end.

(** The header test of line 75. *)
Definition is_header (line : str) : bool :=
  truthy_str line
  && existsb (fun c => char_in c NUMERAL_LETTERS) (take 2 line)
  && existsb (fun month => str_in month line) (dict_keys month_map)
  && negb (startswith line RABBI).

(** The name test of line 101. *)
Definition is_name (d : option Z) (line : str) : bool :=
  truthy_day d && existsb (startswith line) name_prefixes.

Section Scan.
Variable db : UnicodeData.

(** The body of the loop over [block_lines], lines 74-117.  [parts[0]] is
    read with [hd]: [split] never gives an empty list ([split_from_cons]).
    In the name arm [current_day] holds a number, which is the day of the
    key. *)
Definition scan_line (line : str) : M branch := fun σ =>
  let line := replace (replace line [BACKSLASH] []) [APOSTROPHE] [] in
  if is_header line then
    let parts := split line [SPACE] in
    let day_text := hd [] parts in
    let month_text :=
      find (fun m => str_in m line) (sorted_len_reverse (dict_keys month_map)) in
    match month_text with
    | None => (set_day None σ, Ok HeaderNoMonthText)
    | Some [] => (set_day None σ, Ok HeaderNoMonthText)
    | Some month_text =>
      match dict_lookup month_map month_text with
      | None =>
        (set_day None (set_month None (default_pref σ) σ), Ok HeaderNoMonth)
      | Some month =>
        let σ :=
          if bool_decide (month ∈ [12; 13]) then
            set_month (Some 12)
              (if str_eqb month_text ADAR_A then Some 1
               else if str_eqb month_text ADAR_B then Some 2
               else None) σ
          else set_month (Some month) None σ in
        match hebrew_to_int day_text with
        | Ok day => (set_day (Some day) σ, Ok HeaderSet)
        | Raise ValueError => (set_day None σ, Ok HeaderDecodeError)
        | Raise e => (σ, Raise e)
        end
      end
    end
  else if is_name (current_day σ) line then
    let line := replace line QQ [] in
    let adar_pref := default_pref σ in
    let '(adar_pref, line) :=
      if startswith line MARK_A then (Some 1, strip (drop 3 line))
      else if startswith line MARK_B then (Some 2, strip (drop 3 line))
      else (adar_pref, line) in
    let d := remove_nikud db line in
    let key := (current_month σ, default 0 (current_day σ)) in
    let entry_data := {| text := d; adar_pref := adar_pref |} in
    let local := local_yahrtzeits σ in
    let local := if decide (local !! key = None) then <[key := []]> local else local in
    let local := <[key := default [] (local !! key) ++ [entry_data]]> local in
    (set_local local σ, Ok (NameEmitted key entry_data))
  else if bool_decide (line ∈ connectors) then (σ, Ok Connector)
  else (σ, Ok NoMatch).

(** Lines 72-73: the non-blank lines of a block, trimmed. *)
Definition block_lines (block : str) : list str :=
  map strip (List.filter (fun line => truthy_str (strip line)) (split block [NEWLINE])).

Definition scan_block (block : str) : M unit :=
  for_each (fun line => do _ <- scan_line line; ret tt) (block_lines block).

(** Lines 67-117: the scan of one post's text. *)
Definition scan_content (content_text : str) : M unit := fun σ =>
  let content := split (strip content_text) [NEWLINE; NEWLINE] in
  let σ := set_day None (set_month None None σ) in
  for_each scan_block content σ.
End Scan.

(** ** Posts and pages

    What the scan reads of a post found by [soup.find_all]: the text of
    the [a.username] inside [dl.postprofile], and the text of the
    [div.content] inside [div.postbody].  An outer [None] says that the
    outer element is missing, an inner [None] that the inner one is. *)
Record post := {
  username : option (option str);
  postbody : option (option str);
}.

Definition AUTHOR : str := Eval vm_compute in py "אלטערנעסייד פארקינג".

(** What the request of lines 50-55 gives when the task is not cancelled:
    an exception of class [Exception], or a status with the posts of the
    page. *)
Inductive fetched :=
| FetchRaises (e : exn)
| Response (status : Z) (posts : list post).



Definition empty_env : env :=
  {| current_day := None; current_month := None; default_pref := None;
     local_yahrtzeits := ∅ |}.

Section Page.
Variable db : UnicodeData.

(** Lines 59-117: the body of the loop over [posts]. *)
Definition scan_post (p : post) : M unit :=
  let other_author :=
    match username p with
    | Some (Some author) => negb (str_eqb (strip author) AUTHOR)
    | _ => false
    end in
  if other_author then ret tt
  else
    match postbody p with
    | None => raise AttributeError      (* [None.find(...)], line 64 *)
    | Some None => ret tt
    | Some (Some content_text) => scan_content db content_text
    end.

(** Lines 48-121, for a request that is not cancelled.  What the body
    raises is then an instance of [Exception], which line 119 catches;
    every path returns [local_yahrtzeits], also the handler, so the result
    is the dictionary as the body left it. *)
Definition fetch_forum_page (page : fetched) : gmap (option Z * Z) (list entry) :=
  let body : M unit :=
    match page with
    | FetchRaises e => raise e
    | Response status posts =>
      if negb (status =? 200) then ret tt
      else for_each scan_post posts
    end in
  local_yahrtzeits (body empty_env).1.

End Page.

(** ** [main]: merge and de-duplication *)

(** Lines 131-134, for one key of one result. *)
Definition extend_key (k : key) (value : list entry)
    (data : gmap (option Z * Z) (list entry)) : gmap (option Z * Z) (list entry) :=
  let data := if decide (data !! k = None) then <[k := []]> data else data in
  <[k := default [] (data !! k) ++ value]> data.



(** The same step where the result is known to be a dictionary or an
    instance of [Exception] ([Raise] carries an [exn]): the step cannot
    raise, and the instance of [Exception] is passed over. *)
Definition merge_result (data : gmap (option Z * Z) (list entry))
    (r : result (gmap (option Z * Z) (list entry))) : gmap (option Z * Z) (list entry) :=
  match r with
  | Raise _ => data
  | Ok d => map_fold extend_key data d
  end.

Definition merge_results (results : list (result (gmap (option Z * Z) (list entry))))
    : gmap (option Z * Z) (list entry) :=
  fold_left merge_result results ∅.

(** Lines 137-143: the loop over one key's list, with its [seen] set. *)
Fixpoint ordered_unique (seen : gset (str * option Z)) (l : list entry) : list entry :=
  match l with
  | [] => []
  | e :: l' =>
    let tup := (text e, adar_pref e) in
    if decide (tup ∈ seen) then ordered_unique seen l'
    else e :: ordered_unique ({[ tup ]} ∪ seen) l'
  end.


(** Lines 128-144 where every result is a dictionary or an instance of
    [Exception]: the dictionary that [main] writes out. *)
Definition aggregate (results : list (result (gmap (option Z * Z) (list entry))))
    : gmap (option Z * Z) (list entry) :=
  ordered_unique ∅ <$> merge_results results.

(** * Definitions used in the statements

    The decoder, the merge and the de-duplication written after the
    specification's wording, the parts of a scan step that the lemmas
    name, and the sample inputs of the examples. *)

(** The value of one letter: the table entry, or 0. *)
Definition letter_value (c : char) : Z := dict_get letters c 0.

(** The decoder in the words of the specification: drop the apostrophes
    and double quotes, then add up the letter values. *)
Definition strip_quotes (s : str) : str :=
  List.filter (fun c => negb (c =? APOSTROPHE)%N && negb (c =? QUOTE)%N) s.

Definition numeral_value (s : str) : Z :=
  foldr (fun c acc => letter_value c + acc) 0 (strip_quotes s).

(** The twenty-two letters, in the order of the alphabet; the five final
    forms are not among them. *)
Definition ALEFBET : str := Eval vm_compute in py "אבגדהוזחטיכלמנסעפצקרשת".

(** The standard value of a letter, written out by code point and without
    the program's table: U+05D0 [א] to U+05D8 [ט] are the units, U+05D9 [י],
    U+05DB [כ], U+05DC [ל], U+05DE [מ], U+05E0 [נ], U+05E1 [ס], U+05E2 [ע],
    U+05E4 [פ], U+05E6 [צ] the tens, U+05E7 [ק] to U+05EA [ת] the hundreds;
    every other character counts 0. *)
Definition gematria (c : char) : Z :=
  match c with
  | 1488%N => 1 | 1489%N => 2 | 1490%N => 3 | 1491%N => 4 | 1492%N => 5
  | 1493%N => 6 | 1494%N => 7 | 1495%N => 8 | 1496%N => 9
  | 1497%N => 10 | 1499%N => 20 | 1500%N => 30 | 1502%N => 40 | 1504%N => 50
  | 1505%N => 60 | 1506%N => 70 | 1508%N => 80 | 1510%N => 90
  | 1511%N => 100 | 1512%N => 200 | 1513%N => 300 | 1514%N => 400
  | _ => 0
  end.

(** The sum of the standard values of the characters of [s] that are
    neither an apostrophe nor a double quote. *)
Definition gematria_sum (s : str) : Z :=
  foldr (fun c acc => gematria c + acc) 0 (strip_quotes s).

(** The cleaning of line 74. *)
Definition clean (line : str) : str :=
  replace (replace line [BACKSLASH] []) [APOSTROPHE] [].

(** What a header does to the variables, given the alias and the month
    that lines 78 and 82 found. *)
Definition header_env (line month_text : str) (month : Z) (σ : env) : env :=
  set_day (Some (numeral_value (hd [] (split line [SPACE]))))
    (if bool_decide (month ∈ [12; 13]) then
       set_month (Some 12)
         (if str_eqb month_text ADAR_A then Some 1
          else if str_eqb month_text ADAR_B then Some 2
          else None) σ
     else set_month (Some month) None σ).

(** The record a name line appends. *)
Definition name_entry (db : UnicodeData) (line : str) (σ : env) : entry :=
  {| text := remove_nikud db (replace line QQ []); adar_pref := default_pref σ |}.

(** The key of line 111. *)
Definition name_key (σ : env) : key :=
  (current_month σ, default 0 (current_day σ)).

Definition HEADER_20_TISHREI : str := Eval vm_compute in py "כ תשרי".

Definition HEADER_20_ADAR_A : str := Eval vm_compute in py "כ אדר א'".
Definition MARKED_NAME_LINE : str := Eval vm_compute in py "(ב) רבי משה".



(** A post of the scanned author with the given text, and a text made of
    lines. *)
Definition post_of (content_text : str) : post :=
  {| username := Some (Some AUTHOR); postbody := Some (Some content_text) |}.

Fixpoint unlines (ls : list str) : str :=
  match ls with
  | [] => []
  | [l] => l
  | l :: ls' => l ++ NEWLINE :: unlines ls'
  end.

Definition NAME_LINE : str := Eval vm_compute in py "רבי משה".


(** A post with the header [כ אדר א'] and a name line, and a post with the
    header [כ אדר] and a name line that begins with the second-half
    marker. *)
Definition PAGE_ADAR_A : fetched :=
  Eval vm_compute in Response 200 [post_of (unlines [HEADER_20_ADAR_A; NAME_LINE])].

Definition PAGE_MARKED_NAME : fetched :=
  Eval vm_compute in Response 200 [post_of (unlines [py "כ אדר"; MARKED_NAME_LINE])].

Definition NAME_WITH_APOSTROPHE : str := Eval vm_compute in py "רבי ר' משה".

(** The pair that line 140 puts into [seen]. *)
Definition pair_of (e : entry) : str * option Z := (text e, adar_pref e).

(** The merge in the words of the specification: under a key, the lists
    that the results hold under that key, one after the other in the order
    of the results; no entry when no result has the key. *)
Definition values_at (k : key) (results : list (result (gmap (option Z * Z) (list entry))))
    : list (list entry) :=
  omap (fun r => match r with Ok d => d !! k | Raise _ => None end) results.

Definition merged_at (k : key) (results : list (result (gmap (option Z * Z) (list entry))))
    : option (list entry) :=
  match values_at k results with
  | [] => None
  | vs => Some (concat vs)
  end.

(** The de-duplication in the words of the specification: a record stays
    when no record before it in the list has the same pair. *)
Fixpoint first_occurrences_after (earlier l : list entry) : list entry :=
  match l with
  | [] => []
  | e :: l' =>
    if bool_decide (pair_of e ∈ pair_of <$> earlier)
    then first_occurrences_after (earlier ++ [e]) l'
    else e :: first_occurrences_after (earlier ++ [e]) l'
  end.

Definition first_occurrences (l : list entry) : list entry :=
  first_occurrences_after [] l.

Definition ENTRY_PLAIN : entry := {| text := NAME_LINE; adar_pref := None |}.
Definition ENTRY_FIRST : entry := {| text := NAME_LINE; adar_pref := Some 1 |}.

(** Three results of [asyncio.gather]: two dictionaries and an exception. *)
Definition RESULTS_SAMPLE : list (result (gmap (option Z * Z) (list entry))) :=
  [ Ok {[ (Some 12, 5) := [ENTRY_PLAIN; ENTRY_FIRST] ]};
    Raise ClientError;
    Ok {[ (Some 12, 5) := [ENTRY_FIRST; ENTRY_PLAIN]; (Some 7, 20) := [ENTRY_PLAIN] ]} ].




Definition POST_20_TISHREI : post :=
  Eval vm_compute in post_of (unlines [HEADER_20_TISHREI; NAME_LINE]).


(** A database gives full decompositions: decomposing a character of a
    decomposition changes nothing. *)
Definition fully_decomposed (db : UnicodeData) : Prop :=
  ∀ c d, In d (decomposition db c) → decomposition db d = [d].

(** Two marks of category [Mc], in the wrong order of classes, kept apart
    by a combining grapheme joiner (category [Mn], class 0). *)
Definition STEM_AFTER_DOT : str := [0x1D16D; 0x034F; 0x1D165]%N.

(** The word [שָׁלוֹם], with its points. *)
Definition SHALOM_POINTED : str := Eval vm_compute in py "שָׁלוֹם".

(** Two databases agree on the characters of [s] and of their
    decompositions. *)
Definition agree_on (db1 db2 : UnicodeData) (s : str) : Prop :=
  ∀ c, In c s →
    decomposition db1 c = decomposition db2 c
    ∧ ∀ d, In d (decomposition db1 c) →
        combining db1 d = combining db2 d ∧ category_Mn db1 d = category_Mn db2 d.

(** ** The rest of [fetch_forum_page] and of [main] *)

(** Line 62: the post is by another author. *)
Definition other_author (p : post) : bool :=
  match username p with
  | Some (Some author) => negb (str_eqb (strip author) AUTHOR)
  | _ => false
  end.

(** A post the loop passes over: another author's (line 63) or one
    without [div.content] (line 66). *)
Definition passed_over (p : post) : bool :=
  other_author p || bool_decide (postbody p = Some None).

(** A post on which line 64 raises. *)
Definition raises_at (p : post) : bool :=
  negb (other_author p) && bool_decide (postbody p = None).

(** Two dictionaries of lists put together: under a key, the list of the
    first followed by the list of the second. *)
Definition dict_append (a b : gmap (option Z * Z) (list entry))
    : gmap (option Z * Z) (list entry) :=
  union_with (fun x y => Some (x ++ y)) a b.

(** The same variables, with the dictionary [L] put before the one at
    hand. *)
Definition frame (L : gmap (option Z * Z) (list entry)) (σ : env) : env :=
  set_local (dict_append L (local_yahrtzeits σ)) σ.

(** [str(n)] for an integer: decimal digits, with a minus sign for a
    negative number. *)
Definition str_of_int (z : Z) : str :=
  map Ascii.N_of_ascii (String.list_ascii_of_string (pretty z)).

Definition UNDERSCORE : char := 95%N.

(** Line 146: the key [f"{k[0]}_{k[1]}"] of the dictionary written out;
    [None] is formatted as [None]. *)
Definition format_key (k : key) : str :=
  match k.1 with
  | Some m => str_of_int m
  | None => py "None"
  end ++ UNDERSCORE :: str_of_int k.2.

(** The dictionary comprehension of line 146.  Were two keys formatted
    alike, the later one would replace the earlier; [format_key_inj] shows
    that this does not happen. *)
Definition output_dict (data : gmap (option Z * Z) (list entry))
    : gmap str (list entry) :=
  kmap format_key data.

(** Every list of the dictionary has a record, and every record has
    [adar_pref] [None]; [default_pref] is [None]. *)
Definition records_inv (σ : env) : Prop :=
  default_pref σ = None
  ∧ ∀ k l, local_yahrtzeits σ !! k = Some l →
      l ≠ [] ∧ ∀ e, e ∈ l → adar_pref e = None.

(** A decimal digit or the minus sign. *)
Definition numeric_char (c : char) : Prop := (48 ≤ c ≤ 57)%N ∨ c = 45%N.

(** The first token of a line: the characters before the first space. *)
Fixpoint first_token (line : str) : str :=
  match line with
  | [] => []
  | c :: t => if (SPACE =? c)%N then [] else c :: first_token t
  end.

(** Sample inputs: a header whose first token is empty, and a pointed
    name. *)
Definition HEADER_DAY_0 : str := Eval vm_compute in py "' אב".
Definition POST_DAY_31 : post :=
  Eval vm_compute in post_of (unlines [py "לא תשרי"; NAME_LINE]).
Definition POST_OTHER_AUTHOR : post :=
  Eval vm_compute in {| username := Some (Some (py "someone")); postbody := None |}.
(** A name line in which the alias [אב] occurs. *)
Definition NAME_LINE_WITH_MONTH : str := Eval vm_compute in py "רבי אברהם".
Definition RABBI_POINTED : str := Eval vm_compute in py "רַבִּי מֹשֶׁה".

(** * Properties *)

(** ** The tables as code points *)

Example letters_code_points :
  letters = [ (1488%N, 1); (1489%N, 2); (1490%N, 3); (1491%N, 4); (1492%N, 5);
              (1493%N, 6); (1494%N, 7); (1495%N, 8); (1496%N, 9); (1497%N, 10);
              (1499%N, 20); (1500%N, 30); (1502%N, 40); (1504%N, 50); (1505%N, 60);
              (1506%N, 70); (1508%N, 80); (1510%N, 90);
              (1511%N, 100); (1512%N, 200); (1513%N, 300); (1514%N, 400) ].
Proof. reflexivity. Qed.

Example sorted_month_keys :
  sorted_len_reverse (dict_keys month_map) =
  [ py "מנחם אב"; py "מרחשון"; py "אדר א'"; py "אדר ב'";
    py "ניסן"; py "אייר"; py "סיון"; py "תמוז"; py "מנ" ++ [QUOTE] ++ py "א";
    py "אלול"; py "תשרי"; py "חשון"; py "כסלו";
    py "טבת"; py "שבט"; py "אדר"; py "אב" ].
Proof. vm_compute. reflexivity. Qed.

(** ** String operations *)

Example replace_non_overlapping :
  replace (py "a??b???c") QQ [] = py "ab?c".
Proof. reflexivity. Qed.

Example split_on_space :
  split (py "כ תשרי  תשפ") [SPACE] = [py "כ"; py "תשרי"; []; py "תשפ"].
Proof. reflexivity. Qed.

Example split_on_blank_line :
  split [97; NEWLINE; NEWLINE; NEWLINE; 98]%N [NEWLINE; NEWLINE]
  = [[97]; [NEWLINE; 98]]%N.
Proof. reflexivity. Qed.

Example strip_both_ends :
  strip ([SPACE; 9] ++ py "רבי  משה" ++ [160; NEWLINE])%N = py "רבי  משה".
Proof. reflexivity. Qed.

Lemma split_from_cons (sep : str) (skip : nat) (cur s : str) :
  ∃ piece pieces, split_from sep skip cur s = piece :: pieces.
Proof.
  revert skip cur. induction s as [|c t IH]; intros skip cur; cbn [split_from]; [eauto|].
  destruct skip as [|k]; [|apply IH].
  destruct (startswith (c :: t) sep); [eauto | apply IH].
Qed.

Lemma replace_char (s : str) (c : char) :
  replace s [c] [] = List.filter (fun x => negb (c =? x)%N) s.
Proof.
  unfold replace. induction s as [|x t IH]; simpl; [done|].
  rewrite andb_true_r. destruct (c =? x)%N; simpl; by rewrite IH.
Qed.

Lemma filter_app_cons_drop (f : char → bool) (s1 s2 : str) (q : char) :
  f q = false → List.filter f (s1 ++ q :: s2) = List.filter f (s1 ++ s2).
Proof.
  intros Hq. rewrite !List.filter_app. simpl. by rewrite Hq.
Qed.

Lemma startswith_cons_inv (s p : str) (a b : char) :
  startswith (b :: s) (a :: p) = true → a = b ∧ startswith s p = true.
Proof.
  simpl. intros [H1 H2]%andb_prop. by apply N.eqb_eq in H1.
Qed.

Lemma startswith_app (p t : str) : startswith (p ++ t) p = true.
Proof. induction p as [|a p IH]; simpl; [done|]. by rewrite N.eqb_refl. Qed.

Lemma startswith_prefix (s p : str) :
  startswith s p = true → ∃ t, s = p ++ t.
Proof.
  revert s. induction p as [|a p IH]; intros s H.
  - by exists s.
  - destruct s as [|b s]; [done|].
    apply startswith_cons_inv in H as [-> H].
    destruct (IH _ H) as [t ->]. by exists t.
Qed.

(** A substring only has characters of the string. *)
Lemma str_in_elem (sub s : str) (c : char) :
  str_in sub s = true → c ∈ sub → c ∈ s.
Proof.
  induction s as [|x t IH]; simpl; intros H Hc.
  - destruct sub; [by apply elem_of_nil in Hc | done].
  - apply orb_prop in H as [H|H].
    + destruct sub as [|a sub]; [by apply elem_of_nil in Hc|].
      apply (startswith_prefix (x :: t)) in H as [r Hr].
      rewrite Hr. apply elem_of_app. by left.
    + apply elem_of_cons. right. by apply IH.
Qed.

(** ** The numeral decoder *)

Lemma fold_left_values (s : str) (a : Z) :
  fold_left (fun value letter => value + dict_get letters letter 0) s a
  = a + foldr (fun c acc => letter_value c + acc) 0 s.
Proof.
  revert a. induction s as [|c s IH]; intros a; cbn [fold_left foldr]; [lia|].
  rewrite IH. unfold letter_value. lia.
Qed.

Lemma strip_quotes_replace (s : str) :
  replace (replace s [APOSTROPHE] []) [QUOTE] [] = strip_quotes s.
Proof.
  rewrite !replace_char. unfold strip_quotes.
  induction s as [|c s IH]; cbn [List.filter]; [done|].
  rewrite (N.eqb_sym c APOSTROPHE), (N.eqb_sym c QUOTE).
  destruct (APOSTROPHE =? c)%N; cbn [List.filter negb andb]; [done|].
  destruct (QUOTE =? c)%N; cbn [negb]; by rewrite IH.
Qed.

Lemma hebrew_to_int_value (s : str) : hebrew_to_int s = Ok (numeral_value s).
Proof.
  unfold hebrew_to_int. destruct s as [|c s]; [done|].
  cbn [truthy_str negb]. rewrite strip_quotes_replace, fold_left_values.
  by unfold numeral_value.
Qed.

Lemma letter_value_nonneg (c : char) : 0 ≤ letter_value c.
Proof.
  unfold letter_value, letters, dict_get.
  repeat (case_decide; [lia|]). lia.
Qed.

Lemma numeral_value_nonneg (s : str) : 0 ≤ numeral_value s.
Proof.
  unfold numeral_value. induction (strip_quotes s) as [|c t IH]; simpl; [lia|].
  pose proof (letter_value_nonneg c). lia.
Qed.

(** The program's table agrees with the standard values at every
    character, in the table or not. *)
Lemma letters_get_gematria (c : char) : dict_get letters c 0 = gematria c.
Proof.
  destruct c as [|p]; [reflexivity|].
  repeat (first [reflexivity | destruct p as [p|p|]]).
Qed.

Lemma numeral_value_gematria_sum (s : str) : numeral_value s = gematria_sum s.
Proof.
  unfold numeral_value, gematria_sum, letter_value.
  induction (strip_quotes s) as [|c t IH]; cbn [foldr]; [done|].
  by rewrite IH, letters_get_gematria.
Qed.

(** C4.  [hebrew_to_int] removes the apostrophes and double quotes and
    adds up the standard values of the remaining characters: its table
    lookup gives, at every character, the standard value, which is 1-9
    for [א]-[ט], 10-90 for [י]-[צ] and 100-400 for [ק]-[ת], and 0 for a
    character that is none of the twenty-two letters, the final forms
    among them.  So [כ] decodes to 20, and [י], a double quote and
    [ז] to 17; the empty string gives 0; putting an apostrophe or a double quote anywhere into the
    input, or taking one out, leaves the result as it was. *)
Theorem hebrew_to_int_sum_of_letter_values :
  (∀ s : str, hebrew_to_int s = Ok (gematria_sum s))
  ∧ (∀ c : char, dict_get letters c 0 = gematria c)
  ∧ gematria <$> ALEFBET
    = [1; 2; 3; 4; 5; 6; 7; 8; 9; 10; 20; 30; 40; 50; 60; 70; 80; 90;
       100; 200; 300; 400]
  ∧ (∀ c : char, c ∉ ALEFBET → gematria c = 0)
  ∧ hebrew_to_int [] = Ok 0
  ∧ hebrew_to_int (py "כ") = Ok 20
  ∧ hebrew_to_int (py "י" ++ QUOTE :: py "ז") = Ok 17
  ∧ hebrew_to_int (py "ךםןףץ") = Ok 0
  ∧ (∀ s1 s2 : str,
       hebrew_to_int (s1 ++ APOSTROPHE :: s2) = hebrew_to_int (s1 ++ s2)
       ∧ hebrew_to_int (s1 ++ QUOTE :: s2) = hebrew_to_int (s1 ++ s2)).
Proof.
  split.
  { intros s. by rewrite hebrew_to_int_value, numeral_value_gematria_sum. }
  split; [exact letters_get_gematria|].
  split; [reflexivity|].
  split.
  { intros c Hc. rewrite <- letters_get_gematria.
    change ALEFBET with (letters.*1) in Hc.
    induction letters as [|[k v] d IH]; simpl; [done|].
    simpl in Hc. apply not_elem_of_cons in Hc as [Hne Hc].
    case_decide; [congruence | by apply IH]. }
  split; [reflexivity|].
  split; [reflexivity|].
  split; [reflexivity|].
  split; [reflexivity|].
  intros s1 s2. rewrite !hebrew_to_int_value. unfold numeral_value, strip_quotes.
  split; f_equal; f_equal; by apply filter_app_cons_drop.
Qed.

Lemma hebrew_to_int_sum_of_letter_values_witness :
  (ch "ך" ∉ ALEFBET) ∧ gematria (ch "ך") = 0.
Proof.
  assert (H : ch "ך" ∉ ALEFBET) by (apply (bool_decide_unpack _); reflexivity).
  split; [exact H|].
  exact (proj1 (proj2 (proj2 (proj2 hebrew_to_int_sum_of_letter_values))) _ H).
Defined.

(** ** The month table *)

Lemma insert_by_len_In (x y : str) (l : list str) :
  In y (insert_by_len x l) ↔ y = x ∨ In y l.
Proof.
  induction l as [|z l IH]; cbn [insert_by_len In]; [intuition congruence|].
  destruct (length x <? length z)%nat; cbn [In]; intuition congruence.
Qed.

Lemma sorted_len_reverse_In (y : str) (l : list str) :
  In y (sorted_len_reverse l) ↔ In y l.
Proof.
  unfold sorted_len_reverse.
  induction l as [|x l IH]; cbn [fold_right In]; [done|].
  rewrite insert_by_len_In. intuition congruence.
Qed.

Lemma dict_lookup_In {V : Type} (d : list (str * V)) (k : str) (v : V) :
  dict_lookup d k = Some v → In (k, v) d.
Proof.
  induction d as [|[k' v'] d IH]; cbn [dict_lookup In]; [done|].
  case_decide as Hk; [intros [= ->]; subst; by left | intros Hd; right; by apply IH].
Qed.

Lemma dict_lookup_key {V : Type} (d : list (str * V)) (k : str) :
  In k (dict_keys d) → is_Some (dict_lookup d k).
Proof.
  unfold dict_keys.
  induction d as [|[k' v'] d IH]; cbn [dict_lookup In map fst]; [done|].
  intros [->|Hk]; case_decide as Hd; eauto; congruence.
Qed.

Lemma month_keys_nonempty (k : str) : In k (dict_keys month_map) → k ≠ [].
Proof.
  assert (H : forallb truthy_str (dict_keys month_map) = true) by reflexivity.
  rewrite forallb_forall in H. intros Hk%H ->. done.
Qed.

Lemma month_values_range (k : str) (m : Z) :
  In (k, m) month_map → 1 ≤ m ≤ 13.
Proof.
  assert (H : forallb (fun kv => (1 <=? kv.2) && (kv.2 <=? 13)) month_map = true)
    by reflexivity.
  rewrite forallb_forall in H. intros Hk%H. cbn [snd] in Hk. lia.
Qed.

Lemma clean_filter (line : str) :
  clean line =
  List.filter (fun c => negb (APOSTROPHE =? c)%N)
    (List.filter (fun c => negb (BACKSLASH =? c)%N) line).
Proof. unfold clean. by rewrite !replace_char. Qed.

Lemma clean_no_apostrophe (line : str) : APOSTROPHE ∉ clean line.
Proof.
  rewrite clean_filter, list_elem_of_In, filter_In.
  intros [_ H]. by rewrite N.eqb_refl in H.
Qed.

(** After the cleaning, the longest-match lookup of line 78 cannot select
    an alias that is written with an apostrophe. *)
Lemma apostrophe_alias_not_in_clean (line alias : str) :
  APOSTROPHE ∈ alias → str_in alias (clean line) = false.
Proof.
  intros Ha. destruct (str_in alias (clean line)) eqn:E; [|done].
  exfalso. eapply clean_no_apostrophe, str_in_elem; eauto.
Qed.

(** When the header test holds, the lookup of line 78 finds a key of the
    table, and line 82 finds its month. *)
Lemma header_month_found (line : str) :
  is_header line = true →
  ∃ month_text month,
    find (fun m => str_in m line) (sorted_len_reverse (dict_keys month_map))
      = Some month_text
    ∧ month_text ≠ []
    ∧ str_in month_text line = true
    ∧ dict_lookup month_map month_text = Some month.
Proof.
  unfold is_header. intros H.
  apply andb_prop in H as [H _]. apply andb_prop in H as [_ H].
  apply existsb_exists in H as (m & Hm & Hin).
  destruct (find (fun m => str_in m line) (sorted_len_reverse (dict_keys month_map)))
    as [mt|] eqn:Hfind.
  - apply find_some in Hfind as [Hmt Hmt_in].
    rewrite sorted_len_reverse_In in Hmt.
    destruct (dict_lookup_key month_map mt Hmt) as [month Hmonth].
    exists mt, month. split_and!; auto using month_keys_nonempty.
  - exfalso. eapply find_none in Hfind; [|rewrite sorted_len_reverse_In; apply Hm].
    cbv beta in Hfind. congruence.
Qed.

Section ScanLine.
Variable db : UnicodeData.

Lemma scan_line_header (line : str) (σ : env) :
  is_header (clean line) = true →
  ∃ month_text month,
    find (fun m => str_in m (clean line))
      (sorted_len_reverse (dict_keys month_map)) = Some month_text
    ∧ dict_lookup month_map month_text = Some month
    ∧ scan_line db line σ
      = (header_env (clean line) month_text month σ, Ok HeaderSet).
Proof.
  intros H. destruct (header_month_found _ H) as (mt & m & Hfind & Hne & Hin & Hm).
  exists mt, m. split_and!; [done..|].
  unfold scan_line. fold (clean line). rewrite H, Hfind.
  destruct mt as [|c mt]; [done|]. rewrite Hm, hebrew_to_int_value.
  reflexivity.
Qed.
End ScanLine.

(** ** Name lines *)

(** A line that passes the prefix test of line 101 still begins, after
    [replace('??', '')], with a character other than the opening
    parenthesis. *)
Lemma name_line_head (line : str) :
  existsb (startswith line) name_prefixes = true →
  ∃ c t, replace line QQ [] = c :: t ∧ c ≠ 40%N.
Proof.
  intros (p & Hp & Hs)%existsb_exists.
  apply startswith_prefix in Hs as [t ->].
  unfold name_prefixes in Hp. cbn [In] in Hp.
  repeat (destruct Hp as [<-|Hp]; [cbn; eexists _, _; split; [reflexivity|done]|]).
  done.
Qed.

Lemma name_line_no_marker (line : str) :
  existsb (startswith line) name_prefixes = true →
  startswith (replace line QQ []) MARK_A = false
  ∧ startswith (replace line QQ []) MARK_B = false.
Proof.
  intros (c & t & -> & Hc)%name_line_head.
  unfold MARK_A, MARK_B. cbn [startswith].
  apply N.eqb_neq in Hc. rewrite (N.eqb_sym 40 c), Hc. done.
Qed.

Lemma extend_key_lookup (k k' : key) (value : list entry)
    (data : gmap (option Z * Z) (list entry)) :
  extend_key k value data !! k'
  = if decide (k = k') then Some (default [] (data !! k) ++ value) else data !! k'.
Proof.
  unfold extend_key. destruct (decide (k = k')) as [<-|Hk].
  - rewrite lookup_insert_eq. f_equal. f_equal.
    case_decide as Hd; [by rewrite lookup_insert_eq, Hd | done].
  - rewrite lookup_insert_ne by done.
    case_decide as Hd; [by rewrite lookup_insert_ne | done].
Qed.

Section ScanLineCases.
Variable db : UnicodeData.

Lemma scan_line_name (line : str) (σ : env) :
  is_header (clean line) = false →
  is_name (current_day σ) (clean line) = true →
  scan_line db line σ
  = (set_local
       (extend_key (name_key σ) [name_entry db (clean line) σ] (local_yahrtzeits σ)) σ,
     Ok (NameEmitted (name_key σ) (name_entry db (clean line) σ))).
Proof.
  intros Hh Hn. unfold scan_line. fold (clean line). rewrite Hh, Hn.
  apply andb_prop in Hn as [_ Hn].
  destruct (name_line_no_marker _ Hn) as [-> ->].
  reflexivity.
Qed.

Lemma scan_line_other (line : str) (σ : env) :
  is_header (clean line) = false →
  is_name (current_day σ) (clean line) = false →
  scan_line db line σ = (σ, Ok Connector) ∨ scan_line db line σ = (σ, Ok NoMatch).
Proof.
  intros Hh Hn. unfold scan_line. fold (clean line). rewrite Hh, Hn.
  case_bool_decide; auto.
Qed.

(** The three ways a line can go. *)
Lemma scan_line_cases (line : str) (σ : env) :
  (∃ month_text month,
      is_header (clean line) = true
      ∧ find (fun m => str_in m (clean line))
          (sorted_len_reverse (dict_keys month_map)) = Some month_text
      ∧ dict_lookup month_map month_text = Some month
      ∧ scan_line db line σ
        = (header_env (clean line) month_text month σ, Ok HeaderSet))
  ∨ (is_header (clean line) = false
     ∧ is_name (current_day σ) (clean line) = true
     ∧ scan_line db line σ
       = (set_local
            (extend_key (name_key σ) [name_entry db (clean line) σ]
               (local_yahrtzeits σ)) σ,
          Ok (NameEmitted (name_key σ) (name_entry db (clean line) σ))))
  ∨ (is_header (clean line) = false
     ∧ is_name (current_day σ) (clean line) = false
     ∧ (scan_line db line σ = (σ, Ok Connector)
        ∨ scan_line db line σ = (σ, Ok NoMatch))).
Proof.
  destruct (is_header (clean line)) eqn:Hh.
  - left. destruct (scan_line_header db line σ Hh) as (mt & m & ? & ? & ?).
    exists mt, m. auto.
  - right. destruct (is_name (current_day σ) (clean line)) eqn:Hn.
    + left. auto using scan_line_name.
    + right. auto using scan_line_other.
Qed.
End ScanLineCases.

(** ** Dead branches of the header arm *)

Section Branches.
Variable db : UnicodeData.

Lemma scan_line_branch (line : str) (σ : env) :
  (scan_line db line σ).2 = Ok HeaderSet
  ∨ (∃ k e, (scan_line db line σ).2 = Ok (NameEmitted k e))
  ∨ (scan_line db line σ).2 = Ok Connector
  ∨ (scan_line db line σ).2 = Ok NoMatch.
Proof.
  destruct (scan_line_cases db line σ)
    as [(mt & m & _ & _ & _ & ->)|[(_ & _ & ->)|(_ & _ & [-> | ->])]];
    cbn [snd]; eauto.
Qed.

Lemma scan_line_never_raises (line : str) (σ : env) :
  ∃ b, (scan_line db line σ).2 = Ok b.
Proof.
  destruct (scan_line_branch line σ) as [H|[(k & e & H)|[H|H]]]; rewrite H; eauto.
Qed.

(** C8.  [hebrew_to_int] returns a number on every string and never
    raises, so no line makes the scan take the [except ValueError] arm
    that clears [current_day]; the scan of a line never raises either. *)
Theorem hebrew_to_int_total_decode_error_branch_dead :
  (∀ s : str, ∃ v : Z, hebrew_to_int s = Ok v ∧ 0 ≤ v)
  ∧ (∀ (line : str) (σ : env),
       (scan_line db line σ).2 ≠ Ok HeaderDecodeError
       ∧ ∃ b, (scan_line db line σ).2 = Ok b).
Proof.
  split.
  - intros s. exists (numeral_value s).
    split; [apply hebrew_to_int_value | apply numeral_value_nonneg].
  - intros line σ.
    destruct (scan_line_branch line σ) as [H|[(k & e & H)|[H|H]]];
      rewrite H; split; eauto; discriminate.
Qed.

(** C10.  On a line that passes the header test, the longest-match lookup
    of line 78 finds an alias, the alias is a non-empty key of the table
    and line 82 finds its month, so the header is taken; no line at all
    makes the scan take one of the two arms that clear [current_day] for
    want of a month. *)
Theorem header_test_implies_month_found (line : str) (σ : env) :
  (is_header (clean line) = true →
     (∃ month_text month,
         find (fun m => str_in m (clean line))
           (sorted_len_reverse (dict_keys month_map)) = Some month_text
         ∧ month_text ≠ []
         ∧ dict_lookup month_map month_text = Some month)
     ∧ (scan_line db line σ).2 = Ok HeaderSet)
  ∧ (scan_line db line σ).2 ≠ Ok HeaderNoMonthText
  ∧ (scan_line db line σ).2 ≠ Ok HeaderNoMonth.
Proof.
  split.
  - intros H. split.
    + destruct (header_month_found _ H) as (mt & m & ? & ? & ? & ?). eauto.
    + destruct (scan_line_header db line σ H) as (mt & m & _ & _ & ->). done.
  - destruct (scan_line_branch line σ) as [H|[(k & e & H)|[H|H]]];
      rewrite H; split; discriminate.
Qed.
End Branches.

Lemma header_test_implies_month_found_witness :
  is_header (clean HEADER_20_TISHREI) = true
  ∧ (scan_line ucd_excerpt HEADER_20_TISHREI empty_env).2 = Ok HeaderSet.
Proof.
  split; [reflexivity|].
  apply (proj1 (header_test_implies_month_found ucd_excerpt HEADER_20_TISHREI empty_env)).
  reflexivity.
Defined.

(** ** The leap-month preference *)

Lemma found_alias_in_line (line month_text : str) :
  find (fun m => str_in m line) (sorted_len_reverse (dict_keys month_map))
    = Some month_text →
  str_in month_text line = true.
Proof. intros H. by apply find_some in H as [_ H]. Qed.

Lemma header_env_pref (line month_text : str) (month : Z) (σ : env) :
  str_in month_text (clean line) = true →
  default_pref (header_env (clean line) month_text month σ) = None.
Proof.
  intros Hin. unfold header_env, set_day, set_month.
  case_bool_decide; cbn [default_pref]; [|done].
  unfold str_eqb. repeat case_bool_decide; subst; try done; exfalso.
  - rewrite apostrophe_alias_not_in_clean in Hin; [done|].
    apply list_elem_of_In. unfold ADAR_A, APOSTROPHE. cbn [In]. tauto.
  - rewrite apostrophe_alias_not_in_clean in Hin; [done|].
    apply list_elem_of_In. unfold ADAR_B, APOSTROPHE. cbn [In]. tauto.
Qed.

Section LeapPreference.
Variable db : UnicodeData.

(** C2.  On the header line [כ אדר א'] as it is written, the longest alias
    that occurs is the first-half alias; but the scan looks the alias up
    after line 74 has removed the apostrophes, the alias is written with an
    apostrophe, and so the bare alias is selected: the month becomes 12
    and [default_pref] is cleared, not set to first, and a name under that
    header is recorded with [adar_pref] [None].  No line ever sets
    [default_pref] to first or second: a line leaves it as it was or
    clears it. *)
Theorem first_half_alias_lost_by_cleaning :
  find (fun m => str_in m HEADER_20_ADAR_A)
    (sorted_len_reverse (dict_keys month_map)) = Some ADAR_A
  ∧ find (fun m => str_in m (clean HEADER_20_ADAR_A))
      (sorted_len_reverse (dict_keys month_map)) = Some (py "אדר")
  ∧ (∀ σ : env,
       scan_line db HEADER_20_ADAR_A σ
       = (set_day (Some 20) (set_month (Some 12) None σ), Ok HeaderSet))
  ∧ fetch_forum_page db PAGE_ADAR_A
    = {[ (Some 12, 20) := [ {| text := remove_nikud db NAME_LINE; adar_pref := None |} ] ]}
  ∧ (∀ (line : str) (σ : env),
       default_pref (scan_line db line σ).1 = None
       ∨ default_pref (scan_line db line σ).1 = default_pref σ).
Proof.
  split; [reflexivity|]. split; [reflexivity|]. split; [|split].
  - intros σ. reflexivity.
  - reflexivity.
  - intros line σ.
    destruct (scan_line_cases db line σ)
      as [(mt & m & _ & Hf & _ & ->)|[(_ & _ & ->)|(_ & _ & [-> | ->])]];
      cbn [fst]; auto.
    left. apply header_env_pref. by apply found_alias_in_line.
Qed.

(** C7.  A line that begins with a leaf marker does not pass the prefix
    test of line 101, which is made before the marker is looked for, so
    nothing is emitted for it and the override of lines 104-109 is never
    applied: the line [(ב) רבי משה] is passed over whatever the variables
    hold, a post with a header and that line gives no record, and every
    record that is emitted carries [default_pref] and comes from a line
    that begins with no marker. *)
Theorem leaf_marker_line_emits_nothing :
  (∀ σ : env, scan_line db MARKED_NAME_LINE σ = (σ, Ok NoMatch))
  ∧ fetch_forum_page db PAGE_MARKED_NAME = ∅
  ∧ (∀ (line : str) (σ : env),
       match (scan_line db line σ).2 with
       | Ok (NameEmitted k e) =>
           adar_pref e = default_pref σ
           ∧ startswith (clean line) MARK_A = false
           ∧ startswith (clean line) MARK_B = false
       | _ => True
       end).
Proof.
  split.
  - intros σ. unfold scan_line.
    change (replace (replace MARKED_NAME_LINE [BACKSLASH] []) [APOSTROPHE] [])
      with MARKED_NAME_LINE.
    change (is_header MARKED_NAME_LINE) with false. cbv iota.
    unfold is_name.
    change (existsb (startswith MARKED_NAME_LINE) name_prefixes) with false.
    rewrite andb_false_r. reflexivity.
  - split; [reflexivity|]. intros line σ.
    destruct (scan_line_cases db line σ)
      as [(mt & m & _ & _ & _ & ->)|[(_ & Hn & ->)|(_ & _ & [-> | ->])]];
      cbn [snd]; try done.
    split; [done|].
    apply andb_prop in Hn as [_ (p & Hp & Hs)%existsb_exists].
    apply startswith_prefix in Hs as [t ->].
    unfold name_prefixes in Hp. cbn [In] in Hp.
    repeat (destruct Hp as [<-|Hp]; [by split|]). done.
Qed.
End LeapPreference.

(** ** Keys of the emitted records *)


Lemma for_each_inv {A : Type} (P : env → Prop) (body : A → M unit) (l : list A) :
  (∀ x σ, P σ → P (body x σ).1) →
  ∀ σ, P σ → P (for_each body l σ).1.
Proof.
  intros Hbody. induction l as [|x l IH]; intros σ Hσ; cbn [for_each]; [done|].
  unfold bind. specialize (Hbody x σ Hσ).
  destruct (body x σ) as [σ' [[]|e]]; cbn [fst] in *; [by apply IH | done].
Qed.

Section Invariant.
Variable db : UnicodeData.






End Invariant.




(** ** A header line followed by a name line *)

Lemma split_from_char (c : char) (cur s1 s2 : str) :
  c ∉ s1 →
  split_from [c] 0 cur (s1 ++ c :: s2) = (rev cur ++ s1) :: split_from [c] 0 [] s2.
Proof.
  revert cur. induction s1 as [|x s1 IH]; intros cur Hc.
  - cbn [app split_from startswith length pred]. rewrite N.eqb_refl, app_nil_r. done.
  - apply not_elem_of_cons in Hc as [Hx Hc].
    cbn [app split_from startswith]. apply N.eqb_neq in Hx. rewrite Hx.
    cbn [andb]. rewrite IH by done. cbn [rev]. by rewrite <- app_assoc.
Qed.

Lemma split_from_no_char (c : char) (cur s : str) :
  c ∉ s → split_from [c] 0 cur s = [rev cur ++ s].
Proof.
  revert cur. induction s as [|x s IH]; intros cur Hc.
  - cbn [split_from]. by rewrite app_nil_r.
  - apply not_elem_of_cons in Hc as [Hx Hc].
    cbn [split_from startswith]. apply N.eqb_neq in Hx. rewrite Hx.
    cbn [andb]. rewrite IH by done. cbn [rev]. by rewrite <- app_assoc.
Qed.

Lemma clean_rabbi_prefix (s : str) :
  startswith s RABBI = true → startswith (clean s) RABBI = true.
Proof.
  intros [t ->]%startswith_prefix.
  rewrite clean_filter, !List.filter_app.
  change (List.filter _ (List.filter _ RABBI)) with RABBI.
  apply startswith_app.
Qed.

Section HeaderThenName.
Variable db : UnicodeData.

Lemma scan_lines_step (line : str) (lines : list str) (σ σ' : env) (b : branch) :
  scan_line db line σ = (σ', Ok b) →
  for_each (fun line => do _ <- scan_line db line; ret tt) (line :: lines) σ
  = for_each (fun line => do _ <- scan_line db line; ret tt) lines σ'.
Proof. intros H. cbn [for_each]. unfold bind, ret. by rewrite H. Qed.

Lemma header_20_tishrei_scan (σ : env) :
  scan_line db HEADER_20_TISHREI σ
  = (set_day (Some 20) (set_month (Some 7) None σ), Ok HeaderSet).
Proof. reflexivity. Qed.

(** C1, amended.  From the all-absent variables and the empty dictionary,
    the block made of the header line [כ תשרי] and of a line that, once
    trimmed, begins with [רבי ] ends with exactly one record, under the
    key (7, 20); its [adar_pref] is [None] and its text is that line,
    trimmed, without its backslashes, its apostrophes and its [??], and
    then without its diacritics. *)
Theorem header_then_name_one_record (name : str) :
  NEWLINE ∉ name →
  startswith (strip name) RABBI = true →
  scan_block db (HEADER_20_TISHREI ++ NEWLINE :: name) empty_env
  = ({| current_day := Some 20; current_month := Some 7; default_pref := None;
        local_yahrtzeits :=
          {[ (Some 7, 20) :=
               [ {| text := remove_nikud db (replace (clean (strip name)) QQ []);
                    adar_pref := None |} ] ]} |},
     Ok tt).
Proof.
  intros Hnl Hrabbi.
  assert (Hlines : block_lines (HEADER_20_TISHREI ++ NEWLINE :: name)
                   = [HEADER_20_TISHREI; strip name]).
  { unfold block_lines, split.
    rewrite split_from_char by (unfold HEADER_20_TISHREI, NEWLINE; set_unfold; lia).
    rewrite split_from_no_char by done.
    cbn [rev app List.filter].
    change (truthy_str (strip HEADER_20_TISHREI)) with true. cbv iota.
    destruct (strip name) as [|c t] eqn:E; [done|].
    cbn [truthy_str map]. by rewrite E. }
  unfold scan_block. rewrite Hlines.
  rewrite (scan_lines_step _ _ _ _ _ (header_20_tishrei_scan empty_env)).
  erewrite scan_lines_step; [|apply scan_line_name].
  - cbn [for_each]. unfold ret. f_equal.
  - unfold is_header. by rewrite (clean_rabbi_prefix _ Hrabbi), andb_false_r.
  - unfold is_name, name_prefixes. cbn [existsb].
    fold RABBI. by rewrite (clean_rabbi_prefix _ Hrabbi).
Qed.
End HeaderThenName.

Example name_with_apostrophe_text :
  replace (clean (strip NAME_WITH_APOSTROPHE)) QQ [] = py "רבי ר משה".
Proof. reflexivity. Qed.

Lemma header_then_name_one_record_witness :
  scan_block ucd_excerpt (HEADER_20_TISHREI ++ NEWLINE :: NAME_WITH_APOSTROPHE) empty_env
  = ({| current_day := Some 20; current_month := Some 7; default_pref := None;
        local_yahrtzeits :=
          {[ (Some 7, 20) :=
               [ {| text := remove_nikud ucd_excerpt
                              (replace (clean (strip NAME_WITH_APOSTROPHE)) QQ []);
                    adar_pref := None |} ] ]} |},
     Ok tt).
Proof.
  apply (header_then_name_one_record ucd_excerpt NAME_WITH_APOSTROPHE).
  - unfold NAME_WITH_APOSTROPHE, NEWLINE. set_unfold. lia.
  - reflexivity.
Defined.

(** The text of the record is not the name line with its diacritics
    removed when the line has an apostrophe. *)
Lemma record_text_is_not_the_name_line :
  ¬ (local_yahrtzeits
       (scan_block ucd_excerpt
          (HEADER_20_TISHREI ++ NEWLINE :: NAME_WITH_APOSTROPHE) empty_env).1
     = {[ (Some 7, 20) :=
            [ {| text := remove_nikud ucd_excerpt NAME_WITH_APOSTROPHE;
                 adar_pref := None |} ] ]}).
Proof.
  intros H. apply (f_equal (lookup (Some 7, 20))) in H.
  vm_compute in H. discriminate H.
Qed.

(** ** Merge and de-duplication *)

Lemma pair_of_inj (e1 e2 : entry) : pair_of e1 = pair_of e2 → e1 = e2.
Proof. destruct e1, e2. unfold pair_of. cbn. by intros [= -> ->]. Qed.

Lemma merge_result_lookup (data d : gmap (option Z * Z) (list entry)) (k : key) :
  merge_result data (Ok d) !! k
  = match d !! k with
    | Some v => Some (default [] (data !! k) ++ v)
    | None => data !! k
    end.
Proof.
  cbn [merge_result]. revert k.
  apply (map_fold_weak_ind (fun r (m : gmap (option Z * Z) (list entry)) =>
    ∀ k, r !! k = match m !! k with
                  | Some v => Some (default [] (data !! k) ++ v)
                  | None => data !! k
                  end)).
  - intros k. by rewrite lookup_empty.
  - intros i x m r Hi IH k. rewrite extend_key_lookup.
    destruct (decide (i = k)) as [<-|Hne].
    + rewrite lookup_insert_eq. by rewrite IH, Hi.
    + rewrite lookup_insert_ne by done. apply IH.
Qed.

Lemma merge_fold_lookup (results : list (result (gmap (option Z * Z) (list entry))))
    (data : gmap (option Z * Z) (list entry)) (k : key) :
  fold_left merge_result results data !! k
  = match values_at k results with
    | [] => data !! k
    | vs => Some (default [] (data !! k) ++ concat vs)
    end.
Proof.
  revert data. induction results as [|r results IH]; intros data; [done|].
  cbn [fold_left]. rewrite IH. unfold values_at. cbn [omap list_omap].
  fold (values_at k results).
  destruct r as [d|e]; cbn [merge_result].
  - pose proof (merge_result_lookup data d k) as Hd. cbn [merge_result] in Hd.
    rewrite Hd. destruct (d !! k) as [v|]; [|done].
    cbn [default concat]. destruct (values_at k results) as [|v' vs].
    + cbn [concat]. by rewrite app_nil_r.
    + cbn [concat id]. by rewrite <- !app_assoc.
  - done.
Qed.

Lemma merge_results_lookup (results : list (result (gmap (option Z * Z) (list entry))))
    (k : key) :
  merge_results results !! k = merged_at k results.
Proof.
  unfold merge_results, merged_at. rewrite merge_fold_lookup, lookup_empty.
  by destruct (values_at k results).
Qed.

Lemma ordered_unique_first_occurrences (seen : gset (str * option Z))
    (earlier l : list entry) :
  (∀ t, t ∈ seen ↔ t ∈ pair_of <$> earlier) →
  ordered_unique seen l = first_occurrences_after earlier l.
Proof.
  revert seen earlier. induction l as [|e l IH]; intros seen earlier Hseen; [done|].
  cbn [ordered_unique first_occurrences_after]. fold (pair_of e).
  assert (Hnext : ∀ seen' : gset (str * option Z),
            (∀ t, t ∈ seen' ↔ t = pair_of e ∨ t ∈ seen) →
            ∀ t, t ∈ seen' ↔ t ∈ pair_of <$> (earlier ++ [e])).
  { intros seen' Hs t. rewrite Hs, fmap_app, elem_of_app, Hseen.
    cbn [fmap list_fmap]. rewrite list_elem_of_singleton. tauto. }
  destruct (decide (pair_of e ∈ seen)) as [Hin|Hnin].
  - rewrite bool_decide_eq_true_2 by by apply Hseen.
    apply IH, Hnext. intros t. split; [auto|]. by intros [->|?].
  - rewrite bool_decide_eq_false_2 by by rewrite <- Hseen.
    f_equal. apply IH, Hnext. intros t.
    by rewrite elem_of_union, elem_of_singleton.
Qed.

Lemma ordered_unique_elem (seen : gset (str * option Z)) (l : list entry) (e : entry) :
  e ∈ ordered_unique seen l ↔ e ∈ l ∧ pair_of e ∉ seen.
Proof.
  revert seen. induction l as [|x l IH]; intros seen; cbn [ordered_unique].
  - rewrite elem_of_nil. tauto.
  - fold (pair_of x). destruct (decide (pair_of x ∈ seen)) as [Hin|Hnin].
    + rewrite IH, elem_of_cons. split; [tauto|].
      intros [[->|He] Hs]; [done | tauto].
    + rewrite !elem_of_cons, IH, elem_of_union, elem_of_singleton. split.
      * intros [->|[He Hs]]; [tauto|]. split; [tauto|]. tauto.
      * intros [[->|He] Hs]; [tauto|].
        destruct (decide (e = x)) as [->|Hne]; [tauto|].
        right. split; [done|]. intros [Heq%pair_of_inj|?]; done.
Qed.

Lemma ordered_unique_NoDup (seen : gset (str * option Z)) (l : list entry) :
  NoDup (pair_of <$> ordered_unique seen l).
Proof.
  revert seen. induction l as [|x l IH]; intros seen; cbn [ordered_unique].
  - constructor.
  - fold (pair_of x). destruct (decide (pair_of x ∈ seen)); [apply IH|].
    cbn [fmap list_fmap]. constructor; [|apply IH].
    intros (y & Hy & Hin)%list_elem_of_fmap.
    apply ordered_unique_elem in Hin as [_ Hin].
    apply Hin. rewrite elem_of_union, elem_of_singleton. by left.
Qed.

Lemma ordered_unique_sublist (seen : gset (str * option Z)) (l : list entry) :
  sublist (ordered_unique seen l) l.
Proof.
  revert seen. induction l as [|x l IH]; intros seen; cbn [ordered_unique].
  - constructor.
  - destruct (decide _); [apply sublist_cons | apply sublist_skip]; apply IH.
Qed.

Lemma aggregate_lookup (results : list (result (gmap (option Z * Z) (list entry))))
    (k : key) :
  aggregate results !! k = first_occurrences <$> merged_at k results.
Proof.
  unfold aggregate. rewrite lookup_fmap, merge_results_lookup.
  destruct (merged_at k results) as [l|]; [|done]. cbn. f_equal.
  apply ordered_unique_first_occurrences. intros t.
  cbn. rewrite elem_of_nil. set_unfold. tauto.
Qed.

(** C5.  Under every key, the list [main] keeps is the merged list (the
    lists of the results under that key, in the order of the results)
    reduced to the first occurrence of each (text, adar_pref) pair, in the
    order of the merged list; it has no pair twice; and two records of the
    merged list with the same text and different [adar_pref] are both in
    it, as two records. *)
Theorem aggregate_keeps_first_occurrences
    (results : list (result (gmap (option Z * Z) (list entry)))) (k : key) :
  aggregate results !! k = first_occurrences <$> merged_at k results
  ∧ (∀ l, aggregate results !! k = Some l →
          NoDup (pair_of <$> l)
          ∧ ∃ merged, merged_at k results = Some merged ∧ sublist l merged)
  ∧ (∀ merged e1 e2,
       merged_at k results = Some merged →
       e1 ∈ merged → e2 ∈ merged →
       text e1 = text e2 → adar_pref e1 ≠ adar_pref e2 →
       ∃ l, aggregate results !! k = Some l ∧ e1 ∈ l ∧ e2 ∈ l ∧ e1 ≠ e2).
Proof.
  split; [apply aggregate_lookup|]. split.
  - intros l. unfold aggregate. rewrite lookup_fmap, merge_results_lookup.
    destruct (merged_at k results) as [merged|]; [|done].
    intros [= <-]. split; [apply ordered_unique_NoDup|].
    exists merged. split; [done | apply ordered_unique_sublist].
  - intros merged e1 e2 Hm H1 H2 Ht Hp.
    exists (ordered_unique ∅ merged). split.
    + unfold aggregate. by rewrite lookup_fmap, merge_results_lookup, Hm.
    + rewrite !ordered_unique_elem. split_and!; [done | set_solver | done | set_solver |].
      intros ->. done.
Qed.

Example results_sample_aggregate :
  aggregate RESULTS_SAMPLE
  = {[ (Some 12, 5) := [ENTRY_PLAIN; ENTRY_FIRST]; (Some 7, 20) := [ENTRY_PLAIN] ]}.
Proof. vm_compute. reflexivity. Qed.

Lemma aggregate_keeps_first_occurrences_witness :
  (NoDup (pair_of <$> [ENTRY_PLAIN; ENTRY_FIRST])
   ∧ ∃ merged, merged_at (Some 12, 5) RESULTS_SAMPLE = Some merged
               ∧ sublist [ENTRY_PLAIN; ENTRY_FIRST] merged)
  ∧ ∃ l, aggregate RESULTS_SAMPLE !! (Some 12, 5) = Some l
         ∧ ENTRY_PLAIN ∈ l ∧ ENTRY_FIRST ∈ l ∧ ENTRY_PLAIN ≠ ENTRY_FIRST.
Proof.
  split.
  { apply (proj1 (proj2 (aggregate_keeps_first_occurrences RESULTS_SAMPLE (Some 12, 5)))
             [ENTRY_PLAIN; ENTRY_FIRST]).
    vm_compute. reflexivity. }
  apply (proj2 (proj2 (aggregate_keeps_first_occurrences RESULTS_SAMPLE (Some 12, 5)))
           [ENTRY_PLAIN; ENTRY_FIRST; ENTRY_FIRST; ENTRY_PLAIN]).
  - vm_compute. reflexivity.
  - apply list_elem_of_In. cbn. tauto.
  - apply list_elem_of_In. cbn. tauto.
  - reflexivity.
  - discriminate.
Defined.

(** ** Failing units *)


Lemma for_each_never_raises {A : Type} (body : A → M unit) (l : list A) :
  (∀ x σ, (body x σ).2 = Ok tt) → ∀ σ, (for_each body l σ).2 = Ok tt.
Proof.
  intros Hbody. induction l as [|x l IH]; intros σ; cbn [for_each]; [done|].
  unfold bind. specialize (Hbody x σ).
  destruct (body x σ) as [σ' [[]|e]]; [apply IH | done].
Qed.

Section Failure.
Variable db : UnicodeData.

Lemma scan_content_never_raises (content_text : str) (σ : env) :
  (scan_content db content_text σ).2 = Ok tt.
Proof.
  unfold scan_content. apply for_each_never_raises. clear σ.
  intros block σ. unfold scan_block. apply for_each_never_raises. clear σ.
  intros line σ. unfold bind, ret.
  destruct (scan_line_never_raises db line σ) as [b Hb].
  destruct (scan_line db line σ) as [σ' r]. cbn [snd] in Hb. by rewrite Hb.
Qed.

End Failure.



Lemma aggregate_skips_exception
    (results1 results2 : list (result (gmap (option Z * Z) (list entry)))) (e : exn) :
  aggregate (results1 ++ Raise e :: results2) = aggregate (results1 ++ results2).
Proof.
  unfold aggregate, merge_results. by rewrite !fold_left_app.
Qed.








Section FailingUnit.
Variable db : UnicodeData.

End FailingUnit.





(** ** The diacritic normalizer *)

Section NormalizerFacts.
Variable db : UnicodeData.

Lemma insert_mark_In (x c : char) (racc : str) :
  In x (insert_mark db c racc) ↔ x = c ∨ In x racc.
Proof.
  induction racc as [|p r IH]; cbn [insert_mark In]; [intuition congruence|].
  destruct (combining db c <? combining db p)%N; cbn [In]; [rewrite IH|];
    intuition congruence.
Qed.

Lemma reorder_fold_In (x : char) (s racc : str) :
  In x (fold_left (reorder_step db) s racc) ↔ In x s ∨ In x racc.
Proof.
  revert racc. induction s as [|c s IH]; intros racc; cbn [fold_left In]; [tauto|].
  rewrite IH. unfold reorder_step.
  destruct (combining db c =? 0)%N; [cbn [In] | rewrite insert_mark_In]; intuition congruence.
Qed.

Lemma canonical_order_In (x : char) (s : str) :
  In x (canonical_order db s) ↔ In x s.
Proof.
  unfold canonical_order. rewrite <- in_rev, reorder_fold_In. cbn [In]. tauto.
Qed.

Lemma reorder_fold_starters (s racc : str) :
  (∀ c, In c s → combining db c = 0%N) →
  fold_left (reorder_step db) s racc = rev s ++ racc.
Proof.
  revert racc. induction s as [|c s IH]; intros racc Hs; cbn [fold_left rev]; [done|].
  unfold reorder_step at 2. rewrite (Hs c) by by left. cbn [N.eqb].
  rewrite IH by (intros; apply Hs; by right). by rewrite <- app_assoc.
Qed.

Lemma canonical_order_starters (s : str) :
  (∀ c, In c s → combining db c = 0%N) → canonical_order db s = s.
Proof.
  intros Hs. unfold canonical_order.
  by rewrite reorder_fold_starters, app_nil_r, rev_involutive.
Qed.

Lemma flat_map_fixed (s : str) :
  (∀ c, In c s → decomposition db c = [c]) → flat_map (decomposition db) s = s.
Proof.
  induction s as [|c s IH]; intros Hs; cbn [flat_map]; [done|].
  rewrite (Hs c) by by left. rewrite IH by (intros; apply Hs; by right). done.
Qed.

Lemma filter_all (f : char → bool) (s : str) :
  (∀ c, In c s → f c = true) → List.filter f s = s.
Proof.
  induction s as [|c s IH]; intros Hs; cbn [List.filter]; [done|].
  rewrite (Hs c) by by left. rewrite IH by (intros; apply Hs; by right). done.
Qed.

(** C9, amended.  [remove_nikud] is a total function, and applying it twice
    gives what applying it once gives on every string in whose canonical
    decomposition every character of non-zero combining class is of
    category [Mn], as the Hebrew points are. *)
Theorem remove_nikud_idempotent_when_marks_are_Mn (s : str) :
  fully_decomposed db →
  (∀ c, In c (flat_map (decomposition db) s) →
        combining db c ≠ 0%N → category_Mn db c = true) →
  remove_nikud db (remove_nikud db s) = remove_nikud db s.
Proof.
  intros Hfull Hmarks.
  assert (Helem : ∀ c, In c (remove_nikud db s) →
            category_Mn db c = false ∧ combining db c = 0%N
            ∧ decomposition db c = [c]).
  { intros c [Hc Hmn%negb_true_iff]%filter_In.
    unfold normalize_NFD in Hc. rewrite canonical_order_In in Hc.
    split_and!; [done | |].
    - destruct (decide (combining db c = 0%N)) as [|Hne]; [done|].
      rewrite (Hmarks c Hc Hne) in Hmn. done.
    - apply in_flat_map in Hc as (c0 & _ & Hc). by apply (Hfull c0). }
  unfold remove_nikud at 1, normalize_NFD.
  rewrite flat_map_fixed by (intros c Hc; by apply Helem).
  rewrite canonical_order_starters by (intros c Hc; by apply Helem).
  apply filter_all. intros c Hc. apply negb_true_iff. by apply Helem.
Qed.
End NormalizerFacts.

Example stem_after_dot_once :
  remove_nikud ucd_excerpt STEM_AFTER_DOT = [0x1D16D; 0x1D165]%N.
Proof. reflexivity. Qed.

Example stem_after_dot_twice :
  remove_nikud ucd_excerpt (remove_nikud ucd_excerpt STEM_AFTER_DOT)
  = [0x1D165; 0x1D16D]%N.
Proof. reflexivity. Qed.

(** [remove_nikud] is not idempotent on every string: on [STEM_AFTER_DOT]
    the second application puts the two remaining marks in canonical
    order. *)
Lemma remove_nikud_not_idempotent :
  ¬ (∀ s : str,
       remove_nikud ucd_excerpt (remove_nikud ucd_excerpt s)
       = remove_nikud ucd_excerpt s).
Proof. intros H. specialize (H STEM_AFTER_DOT). discriminate H. Qed.

Lemma ucd_excerpt_fully_decomposed : fully_decomposed ucd_excerpt.
Proof. intros c d [<-|[]]. reflexivity. Qed.

Lemma remove_nikud_idempotent_when_marks_are_Mn_witness :
  remove_nikud ucd_excerpt (remove_nikud ucd_excerpt SHALOM_POINTED)
  = remove_nikud ucd_excerpt SHALOM_POINTED.
Proof.
  apply (remove_nikud_idempotent_when_marks_are_Mn ucd_excerpt SHALOM_POINTED).
  - exact ucd_excerpt_fully_decomposed.
  - intros c Hc Hne. cbn in Hc.
    repeat (destruct Hc as [<-|Hc];
            [first [reflexivity | exfalso; apply Hne; reflexivity]|]).
    destruct Hc.
Defined.

(** ** The result depends only on the rows of the characters at hand *)

Section Agreement.
Variables db1 db2 : UnicodeData.

Lemma insert_mark_agree (c : char) (racc : str) :
  combining db1 c = combining db2 c →
  (∀ p, In p racc → combining db1 p = combining db2 p) →
  insert_mark db1 c racc = insert_mark db2 c racc.
Proof.
  intros Hc. induction racc as [|p r IH]; intros Hr; cbn [insert_mark]; [done|].
  rewrite <- Hc, <- (Hr p) by by left.
  destruct (combining db1 c <? combining db1 p)%N; [|done].
  f_equal. apply IH. intros q Hq. apply Hr. by right.
Qed.

Lemma reorder_fold_agree (s racc : str) :
  (∀ c, In c s → combining db1 c = combining db2 c) →
  (∀ p, In p racc → combining db1 p = combining db2 p) →
  fold_left (reorder_step db1) s racc = fold_left (reorder_step db2) s racc.
Proof.
  revert racc. induction s as [|c s IH]; intros racc Hs Hr; cbn [fold_left]; [done|].
  assert (Hstep : reorder_step db1 racc c = reorder_step db2 racc c).
  { unfold reorder_step. rewrite <- (Hs c) by by left.
    destruct (combining db1 c =? 0)%N; [done|].
    apply insert_mark_agree; [apply Hs; by left | done]. }
  rewrite <- Hstep. apply IH; [intros; apply Hs; by right|].
  intros p. unfold reorder_step.
  destruct (combining db1 c =? 0)%N; [cbn [In] | rewrite insert_mark_In].
  - intros [<-|Hp]; [apply Hs; by left | by apply Hr].
  - intros [->|Hp]; [apply Hs; by left | by apply Hr].
Qed.

Lemma remove_nikud_agree (s : str) :
  agree_on db1 db2 s → remove_nikud db1 s = remove_nikud db2 s.
Proof.
  intros Hs.
  assert (Hflat : flat_map (decomposition db1) s = flat_map (decomposition db2) s).
  { clear -Hs. induction s as [|c s IH]; cbn [flat_map]; [done|].
    rewrite (proj1 (Hs c (or_introl eq_refl))). f_equal.
    apply IH. intros d Hd. apply Hs. by right. }
  assert (Hrows : ∀ d, In d (flat_map (decomposition db1) s) →
            combining db1 d = combining db2 d ∧ category_Mn db1 d = category_Mn db2 d).
  { intros d (c & Hc & Hd)%in_flat_map. by apply (Hs c Hc). }
  unfold remove_nikud, normalize_NFD, canonical_order. rewrite <- Hflat.
  rewrite <- (reorder_fold_agree (flat_map (decomposition db1) s) []);
    [|intros c Hc; by apply Hrows | intros c []].
  apply filter_ext_in. intros c Hc.
  rewrite <- in_rev, reorder_fold_In in Hc. destruct Hc as [Hc|[]].
  f_equal. by apply Hrows.
Qed.
End Agreement.

(** Every database that has the three rows of [STEM_AFTER_DOT] computes on
    it what the excerpt computes. *)
Lemma stem_after_dot_in_every_database (db : UnicodeData) :
  (∀ c, In c STEM_AFTER_DOT →
        decomposition db c = [c]
        ∧ combining db c = combining ucd_excerpt c
        ∧ category_Mn db c = category_Mn ucd_excerpt c) →
  remove_nikud db STEM_AFTER_DOT = [0x1D16D; 0x1D165]%N
  ∧ remove_nikud db (remove_nikud db STEM_AFTER_DOT) = [0x1D165; 0x1D16D]%N.
Proof.
  intros Hrows.
  assert (Hagree : agree_on db ucd_excerpt STEM_AFTER_DOT).
  { intros c Hc. destruct (Hrows c Hc) as (Hd & Hcc & Hmn).
    split; [done|]. rewrite Hd. by intros d [<-|[]]. }
  assert (Hagree' : agree_on db ucd_excerpt [0x1D16D; 0x1D165]%N).
  { intros c Hc. apply Hagree. unfold STEM_AFTER_DOT. cbn [In] in *. tauto. }
  rewrite (remove_nikud_agree _ _ _ Hagree).
  rewrite stem_after_dot_once, (remove_nikud_agree _ _ _ Hagree'). done.
Qed.

(** * Further properties of the code *)

(** ** The alias lookup of line 78 *)

Lemma insert_by_len_sorted (x : str) (l : list str) :
  StronglySorted (fun a b => length b ≤ length a)%nat l →
  StronglySorted (fun a b => length b ≤ length a)%nat (insert_by_len x l).
Proof.
  induction 1 as [|y l Hl IH Hy]; cbn [insert_by_len].
  - repeat constructor.
  - destruct (length x <? length y)%nat eqn:E.
    + apply Nat.ltb_lt in E. constructor; [done|].
      apply Forall_forall. intros z Hz%list_elem_of_In%insert_by_len_In.
      destruct Hz as [->|Hz]; [lia|].
      rewrite Forall_forall in Hy. by apply Hy, list_elem_of_In.
    + apply Nat.ltb_ge in E. constructor; [by constructor|].
      constructor; [done|]. eapply Forall_impl; [exact Hy|].
      intros z Hz. cbv beta in Hz. lia.
Qed.

Lemma sorted_len_reverse_sorted (l : list str) :
  StronglySorted (fun a b => length b ≤ length a)%nat (sorted_len_reverse l).
Proof.
  unfold sorted_len_reverse. induction l as [|x l IH]; cbn [fold_right].
  - constructor.
  - by apply insert_by_len_sorted.
Qed.

(** The sort is stable: the keys of one length keep the order of the
    table. *)
Lemma insert_by_len_filter (n : nat) (x : str) (l : list str) :
  List.filter (fun a => length a =? n)%nat (insert_by_len x l)
  = List.filter (fun a => length a =? n)%nat (x :: l).
Proof.
  induction l as [|y l IH]; cbn [insert_by_len]; [done|].
  destruct (length x <? length y)%nat eqn:E; [|done].
  apply Nat.ltb_lt in E. cbn [List.filter] in *. rewrite IH.
  destruct (length x =? n)%nat eqn:Ex; [|done].
  apply Nat.eqb_eq in Ex.
  destruct (length y =? n)%nat eqn:Ey; [|done].
  apply Nat.eqb_eq in Ey. lia.
Qed.

Lemma sorted_len_reverse_filter (n : nat) (l : list str) :
  List.filter (fun a => length a =? n)%nat (sorted_len_reverse l)
  = List.filter (fun a => length a =? n)%nat l.
Proof.
  unfold sorted_len_reverse. induction l as [|x l IH]; cbn [fold_right]; [done|].
  rewrite insert_by_len_filter. cbn [List.filter]. by rewrite IH.
Qed.

Lemma find_sorted_greatest (P : str → bool) (l : list str) (x m : str) :
  StronglySorted (fun a b => length b ≤ length a)%nat l →
  find P l = Some x → In m l → P m = true → (length m ≤ length x)%nat.
Proof.
  induction 1 as [|y l Hl IH Hy]; cbn [find In]; [done|].
  destruct (P y) eqn:Py.
  - intros [= <-] [<-|Hm] _; [done|].
    rewrite Forall_forall in Hy. by apply Hy, list_elem_of_In.
  - intros Hf [<-|Hm] Pm; [congruence | by apply IH].
Qed.

Lemma find_filter (P Q : str → bool) (l : list str) (x : str) :
  find P l = Some x → Q x = true → find P (List.filter Q l) = Some x.
Proof.
  induction l as [|y l IH]; cbn [find List.filter]; [done|].
  destruct (P y) eqn:Py.
  - intros [= ->] Qx. rewrite Qx. cbn [find]. by rewrite Py.
  - intros Hf Qx. destruct (Q y); [cbn [find]; rewrite Py|]; by apply IH.
Qed.

(** X1.  The alias that line 78 selects is a key of the table that occurs
    in the line; no key that occurs in the line is longer; and among the
    keys of its length it is the first, in the order of the table, that
    occurs in the line.  The lookup finds nothing exactly when no key
    occurs in the line. *)
Theorem selected_alias_longest_then_first (line : str) :
  (∀ month_text,
     find (fun m => str_in m line) (sorted_len_reverse (dict_keys month_map))
       = Some month_text →
     In month_text (dict_keys month_map)
     ∧ str_in month_text line = true
     ∧ (∀ alias, In alias (dict_keys month_map) → str_in alias line = true →
                 (length alias ≤ length month_text)%nat)
     ∧ find (fun m => str_in m line)
         (List.filter (fun a => length a =? length month_text)%nat
            (dict_keys month_map)) = Some month_text)
  ∧ (find (fun m => str_in m line) (sorted_len_reverse (dict_keys month_map)) = None
     ↔ ∀ alias, In alias (dict_keys month_map) → str_in alias line = false).
Proof.
  split.
  - intros mt Hfind. pose proof Hfind as [Hin Hocc]%find_some.
    rewrite sorted_len_reverse_In in Hin. split_and!; [done..| |].
    + intros alias Ha Hocc'.
      eapply (find_sorted_greatest _ _ _ _ (sorted_len_reverse_sorted _) Hfind);
        [by apply sorted_len_reverse_In | done].
    + rewrite <- (sorted_len_reverse_filter (length mt)).
      apply find_filter; [done | apply Nat.eqb_refl].
  - split.
    + intros Hnone alias Ha.
      apply (find_none _ _ Hnone alias). by apply sorted_len_reverse_In.
    + intros Hall.
      destruct (find _ (sorted_len_reverse _)) as [mt|] eqn:Hfind; [|done].
      apply find_some in Hfind as [Hin Hocc].
      rewrite sorted_len_reverse_In in Hin. rewrite (Hall mt Hin) in Hocc. done.
Qed.

Lemma selected_alias_longest_then_first_witness :
  In ADAR_A (dict_keys month_map)
  ∧ str_in ADAR_A HEADER_20_ADAR_A = true
  ∧ (∀ alias, In alias (dict_keys month_map) → str_in alias HEADER_20_ADAR_A = true →
              (length alias ≤ length ADAR_A)%nat)
  ∧ find (fun m => str_in m HEADER_20_ADAR_A)
      (List.filter (fun a => length a =? length ADAR_A)%nat (dict_keys month_map))
    = Some ADAR_A.
Proof.
  apply (proj1 (selected_alias_longest_then_first HEADER_20_ADAR_A) ADAR_A).
  reflexivity.
Defined.

(** ** More on the numeral decoder *)

Lemma strip_quotes_app (s1 s2 : str) :
  strip_quotes (s1 ++ s2) = strip_quotes s1 ++ strip_quotes s2.
Proof. unfold strip_quotes. apply List.filter_app. Qed.

Lemma numeral_value_app (s1 s2 : str) :
  numeral_value (s1 ++ s2) = numeral_value s1 + numeral_value s2.
Proof.
  unfold numeral_value. rewrite strip_quotes_app.
  induction (strip_quotes s1) as [|c t IH]; cbn [app foldr]; lia.
Qed.

Lemma numeral_value_Permutation (s s' : str) :
  s ≡ₚ s' → numeral_value s = numeral_value s'.
Proof.
  unfold numeral_value, strip_quotes.
  induction 1 as [|c s s' Hp IH|c d s|s s' s'' H1 IH1 H2 IH2];
    cbn [List.filter foldr]; [done| | |congruence].
  - destruct (negb _ && negb _); cbn [foldr]; lia.
  - destruct (negb (d =? _)%N && _), (negb (c =? _)%N && _); cbn [foldr]; lia.
Qed.

(** X2.  The decoder adds: the value of two strings put together is the
    sum of their values; and the order of the characters does not matter:
    a rearrangement of a string decodes to the same number. *)
Theorem hebrew_to_int_additive_order_free :
  (∀ s1 s2 : str,
     hebrew_to_int (s1 ++ s2) = Ok (numeral_value s1 + numeral_value s2))
  ∧ (∀ s s' : str, s ≡ₚ s' → hebrew_to_int s = hebrew_to_int s').
Proof.
  split.
  - intros s1 s2. by rewrite hebrew_to_int_value, numeral_value_app.
  - intros s s' Hp. rewrite !hebrew_to_int_value. f_equal.
    by apply numeral_value_Permutation.
Qed.

Lemma hebrew_to_int_additive_order_free_witness :
  hebrew_to_int (py "טו") = hebrew_to_int (py "וט").
Proof.
  apply (proj2 hebrew_to_int_additive_order_free (py "טו") (py "וט")).
  apply perm_swap.
Defined.

Lemma letter_value_le_400 (c : char) : letter_value c ≤ 400.
Proof.
  unfold letter_value, letters, dict_get.
  repeat (case_decide; [lia|]). lia.
Qed.

Lemma letter_value_pos (c : char) : c ∈ letters.*1 → 1 ≤ letter_value c.
Proof.
  intros Hc%list_elem_of_In. cbn in Hc.
  repeat (destruct Hc as [<-|Hc]; [by vm_compute|]). destruct Hc.
Qed.

Lemma letter_value_zero (c : char) : c ∉ letters.*1 → letter_value c = 0.
Proof.
  intros Hc. unfold letter_value.
  induction letters as [|[k v] d IH]; cbn [dict_get]; [done|].
  cbn in Hc. apply not_elem_of_cons in Hc as [Hne Hc].
  case_decide; [congruence | by apply IH].
Qed.

Lemma quotes_not_letters (c : char) :
  (negb (c =? APOSTROPHE)%N && negb (c =? QUOTE)%N) = false → c ∉ letters.*1.
Proof.
  intros H Hc%list_elem_of_In. cbn in Hc.
  repeat (destruct Hc as [<-|Hc]; [by vm_compute in H|]). destruct Hc.
Qed.

(** X3.  The decoded number lies between 0 and 400 times the length of the
    string, and it is 0 exactly when no character of the string is a letter
    of the table. *)
Theorem hebrew_to_int_bounds_and_zero (s : str) :
  ∃ v, hebrew_to_int s = Ok v
       ∧ 0 ≤ v ≤ 400 * Z.of_nat (length s)
       ∧ (v = 0 ↔ ∀ c, c ∈ s → c ∉ letters.*1).
Proof.
  exists (numeral_value s). split; [apply hebrew_to_int_value|].
  unfold numeral_value, strip_quotes.
  induction s as [|c s (IHb & IHz)]; cbn [List.filter foldr length].
  - split; [lia|]. split; [intros _ c Hc; by apply elem_of_nil in Hc | done].
  - pose proof (letter_value_nonneg c). pose proof (letter_value_le_400 c).
    destruct (negb (c =? APOSTROPHE)%N && negb (c =? QUOTE)%N) eqn:Eq;
      cbn [foldr].
    + split; [lia|]. split.
      * intros Hv x [->|Hx]%elem_of_cons.
        -- intros Hin%letter_value_pos. lia.
        -- apply IHz; [lia | done].
      * intros Hall. rewrite letter_value_zero by (apply Hall; by left).
        apply proj2 in IHz. rewrite IHz; [lia|].
        intros x Hx. apply Hall. by right.
    + split; [lia|]. rewrite IHz. split.
      * intros Hall x [->|Hx]%elem_of_cons; [by apply quotes_not_letters | by apply Hall].
      * intros Hall x Hx. apply Hall. by right.
Qed.

(** ** What a line does to the variables *)

Lemma first_token_split (cur s : str) :
  hd [] (split_from [SPACE] 0 cur s) = rev cur ++ first_token s.
Proof.
  revert cur. induction s as [|c t IH]; intros cur; cbn [split_from first_token].
  - cbn [hd]. by rewrite app_nil_r.
  - cbn [startswith]. rewrite andb_true_r.
    destruct (SPACE =? c)%N; cbn [hd].
    + by rewrite app_nil_r.
    + rewrite IH. cbn [rev]. by rewrite <- app_assoc.
Qed.

Section LineEffects.
Variable db : UnicodeData.

Lemma scan_line_ignored (line : str) (σ : env) :
  is_header (clean line) = false →
  is_name (current_day σ) (clean line) = false →
  scan_line db line σ
  = (σ, Ok (if bool_decide (clean line ∈ connectors) then Connector else NoMatch)).
Proof.
  intros Hh Hn. unfold scan_line. fold (clean line). rewrite Hh, Hn.
  by case_bool_decide.
Qed.

(** X4.  A header line sets [current_day] to the decoded value of the
    characters before its first space, sets [current_month] to a month
    between 1 and 12, clears [default_pref] and leaves the dictionary as it
    is. *)
Theorem header_line_effect (line : str) (σ : env) :
  is_header (clean line) = true →
  current_day (scan_line db line σ).1
    = Some (numeral_value (first_token (clean line)))
  ∧ (∃ m, current_month (scan_line db line σ).1 = Some m ∧ 1 ≤ m ≤ 12)
  ∧ default_pref (scan_line db line σ).1 = None
  ∧ local_yahrtzeits (scan_line db line σ).1 = local_yahrtzeits σ.
Proof.
  intros H. destruct (scan_line_header db line σ H) as (mt & m & Hf & Hm & ->).
  cbn [fst]. split_and!.
  - unfold header_env, split. cbn [current_day set_day].
    rewrite first_token_split. done.
  - apply dict_lookup_In, month_values_range in Hm. unfold header_env.
    case_bool_decide as H12; cbn [current_month set_day set_month].
    + exists 12. split; [done | lia].
    + exists m. split; [done|]. rewrite !elem_of_cons, elem_of_nil in H12. lia.
  - apply header_env_pref. by apply found_alias_in_line.
  - unfold header_env. by case_bool_decide.
Qed.

(** X5.  While no date is in force ([current_day] is [None] or 0), a line
    that is not a header changes nothing; so a post's text none of whose
    lines is a header leaves the dictionary as it was. *)
Theorem no_date_in_force_no_record :
  (∀ (line : str) (σ : env),
     truthy_day (current_day σ) = false →
     is_header (clean line) = false →
     (scan_line db line σ).1 = σ)
  ∧ (∀ (content_text : str) (σ : env),
       (∀ block line,
          In block (split (strip content_text) [NEWLINE; NEWLINE]) →
          In line (block_lines block) →
          is_header (clean line) = false) →
       local_yahrtzeits (scan_content db content_text σ).1 = local_yahrtzeits σ).
Proof.
  assert (Hline : ∀ line σ, truthy_day (current_day σ) = false →
            is_header (clean line) = false → (scan_line db line σ).1 = σ).
  { intros line σ Hd Hh. rewrite scan_line_ignored; [done..|].
    unfold is_name. by rewrite Hd. }
  split; [exact Hline|].
  intros content_text σ Hno. unfold scan_content.
  set (σ0 := set_day None (set_month None None σ)).
  assert (Hblocks : ∀ blocks, (∀ block line, In block blocks →
              In line (block_lines block) → is_header (clean line) = false) →
            (for_each (scan_block db) blocks σ0).1 = σ0).
  { induction blocks as [|block blocks IH]; intros Hb; cbn [for_each]; [done|].
    assert (Hblock : ∀ lines, (∀ line, In line lines → is_header (clean line) = false) →
              for_each (fun line => do _ <- scan_line db line; ret tt) lines σ0
              = (σ0, Ok tt)).
    { induction lines as [|line lines IHl]; intros Hl; cbn [for_each]; [done|].
      unfold bind at 1. unfold bind at 1.
      pose proof (Hline line σ0 eq_refl (Hl line (or_introl eq_refl))) as Hs.
      destruct (scan_line_never_raises db line σ0) as [b Hb'].
      destruct (scan_line db line σ0) as [σ' r]. cbn [fst snd] in *. subst.
      unfold ret at 1. apply IHl. intros; apply Hl; by right. }
    unfold bind. unfold scan_block at 1.
    rewrite Hblock by (intros line Hl; eapply Hb; [by left | done]).
    apply IH. intros; eapply Hb; [by right | done]. }
  by rewrite Hblocks.
Qed.
End LineEffects.

Lemma header_line_effect_witness :
  current_day (scan_line ucd_excerpt HEADER_DAY_0 empty_env).1 = Some 0
  ∧ (∃ m, current_month (scan_line ucd_excerpt HEADER_DAY_0 empty_env).1 = Some m
          ∧ 1 ≤ m ≤ 12)
  ∧ default_pref (scan_line ucd_excerpt HEADER_DAY_0 empty_env).1 = None
  ∧ local_yahrtzeits (scan_line ucd_excerpt HEADER_DAY_0 empty_env).1 = ∅.
Proof.
  apply (header_line_effect ucd_excerpt HEADER_DAY_0 empty_env). reflexivity.
Defined.

Lemma no_date_in_force_no_record_witness :
  (scan_line ucd_excerpt NAME_LINE
     (set_day (Some 0) (set_month (Some 5) None empty_env))).1
  = set_day (Some 0) (set_month (Some 5) None empty_env)
  ∧ local_yahrtzeits (scan_content ucd_excerpt NAME_LINE empty_env).1 = ∅.
Proof.
  split.
  - apply (proj1 (no_date_in_force_no_record ucd_excerpt)); reflexivity.
  - apply (proj2 (no_date_in_force_no_record ucd_excerpt) NAME_LINE empty_env).
    intros block line Hb Hl. cbn in Hb. destruct Hb as [<-|[]].
    cbn in Hl. destruct Hl as [<-|[]]. reflexivity.
Defined.

(** ** The dictionary of a scan *)

Lemma for_each_app {A : Type} (body : A → M unit) (l1 l2 : list A) (σ : env) :
  for_each body (l1 ++ l2) σ
  = match for_each body l1 σ with
    | (σ1, Ok _) => for_each body l2 σ1
    | (σ1, Raise e) => (σ1, Raise e)
    end.
Proof.
  revert σ. induction l1 as [|x l1 IH]; intros σ; cbn [for_each app]; [done|].
  unfold bind. destruct (body x σ) as [σ' [[]|e]]; [apply IH | done].
Qed.

Lemma for_each_ok_Forall {A : Type} (body : A → M unit) (l : list A) :
  Forall (fun x => ∀ σ, (body x σ).2 = Ok tt) l →
  ∀ σ, (for_each body l σ).2 = Ok tt.
Proof.
  induction 1 as [|x l Hx Hl IH]; intros σ; cbn [for_each]; [done|].
  unfold bind. specialize (Hx σ).
  destruct (body x σ) as [σ' [[]|e]]; [apply IH | done].
Qed.

Lemma dict_append_lookup (a b : gmap (option Z * Z) (list entry)) (k : option Z * Z) :
  dict_append a b !! k
  = match a !! k, b !! k with
    | Some x, Some y => Some (x ++ y)
    | Some x, None => Some x
    | None, o => o
    end.
Proof.
  unfold dict_append. rewrite lookup_union_with.
  by destruct (a !! k), (b !! k).
Qed.

Lemma dict_append_empty_r (a : gmap (option Z * Z) (list entry)) :
  dict_append a ∅ = a.
Proof.
  apply map_eq. intros k. rewrite dict_append_lookup, lookup_empty.
  by destruct (a !! k).
Qed.

Lemma dict_append_empty_l (b : gmap (option Z * Z) (list entry)) :
  dict_append ∅ b = b.
Proof.
  apply map_eq. intros k. by rewrite dict_append_lookup, lookup_empty.
Qed.

Lemma extend_key_dict_append (k : key) (value : list entry)
    (L X : gmap (option Z * Z) (list entry)) :
  extend_key k value (dict_append L X) = dict_append L (extend_key k value X).
Proof.
  apply map_eq. intros k'.
  rewrite extend_key_lookup, !dict_append_lookup, extend_key_lookup.
  unfold key in *. repeat case_decide; subst; try congruence.
  destruct (L !! k') as [l|], (X !! k') as [x|]; cbn [default id];
    by rewrite ?app_assoc, ?app_nil_r.
Qed.

Section Frame.
Variable db : UnicodeData.
Variable L : gmap (option Z * Z) (list entry).

Lemma scan_line_frame (line : str) (σ : env) :
  scan_line db line (frame L σ)
  = (frame L (scan_line db line σ).1, (scan_line db line σ).2).
Proof.
  destruct (scan_line_cases db line σ)
    as [(mt & m & Hh & Hf & Hm & Hs)|[(Hh & Hn & Hs)|(Hh & Hn & _)]].
  - destruct (scan_line_header db line (frame L σ) Hh) as (mt' & m' & Hf' & Hm' & Hs').
    rewrite Hs, Hs'. rewrite Hf in Hf'. injection Hf' as <-.
    rewrite Hm in Hm'. injection Hm' as <-. cbn [fst snd]. f_equal.
    unfold header_env. by case_bool_decide.
  - rewrite Hs. rewrite (scan_line_name db line (frame L σ) Hh Hn).
    cbn [fst snd]. f_equal.
    change (name_key (frame L σ)) with (name_key σ).
    change (name_entry db (clean line) (frame L σ))
      with (name_entry db (clean line) σ).
    unfold frame, set_local. cbn [local_yahrtzeits current_day current_month default_pref].
    by rewrite extend_key_dict_append.
  - rewrite (scan_line_ignored db line σ Hh Hn).
    by rewrite (scan_line_ignored db line (frame L σ) Hh Hn).
Qed.

Lemma for_each_frame {A : Type} (body : A → M unit) (l : list A) :
  (∀ x σ, body x (frame L σ) = (frame L (body x σ).1, (body x σ).2)) →
  ∀ σ, for_each body l (frame L σ)
       = (frame L (for_each body l σ).1, (for_each body l σ).2).
Proof.
  intros Hbody. induction l as [|x l IH]; intros σ; cbn [for_each]; [done|].
  unfold bind. rewrite Hbody.
  destruct (body x σ) as [σ' [[]|e]]; cbn [fst snd]; [apply IH | done].
Qed.

Lemma scan_block_frame (block : str) (σ : env) :
  scan_block db block (frame L σ)
  = (frame L (scan_block db block σ).1, (scan_block db block σ).2).
Proof.
  apply for_each_frame. clear σ. intros line σ. unfold bind, ret.
  rewrite scan_line_frame. by destruct (scan_line db line σ) as [σ' [b|e]].
Qed.

Lemma scan_content_frame (content_text : str) (σ : env) :
  scan_content db content_text (frame L σ)
  = (frame L (scan_content db content_text σ).1, (scan_content db content_text σ).2).
Proof.
  unfold scan_content.
  change (set_day None (set_month None None (frame L σ)))
    with (frame L (set_day None (set_month None None σ))).
  apply for_each_frame, scan_block_frame.
Qed.

Lemma scan_post_frame (p : post) (σ : env) :
  scan_post db p (frame L σ)
  = (frame L (scan_post db p σ).1, (scan_post db p σ).2).
Proof.
  unfold scan_post.
  destruct (match username p with Some (Some _) => _ | _ => false end); [done|].
  destruct (postbody p) as [[content_text|]|]; [|done..].
  apply scan_content_frame.
Qed.

Lemma scan_posts_frame (posts : list post) (σ : env) :
  for_each (scan_post db) posts (frame L σ)
  = (frame L (for_each (scan_post db) posts σ).1,
     (for_each (scan_post db) posts σ).2).
Proof. apply for_each_frame, scan_post_frame. Qed.
End Frame.

Section Posts.
Variable db : UnicodeData.

(** The scan of the posts reads nothing of the three loop variables that
    an earlier post left: they are reset before a post's text is read. *)
Lemma scan_post_same_dict (p : post) (σ σ' : env) :
  local_yahrtzeits σ = local_yahrtzeits σ' →
  local_yahrtzeits (scan_post db p σ).1 = local_yahrtzeits (scan_post db p σ').1
  ∧ (scan_post db p σ).2 = (scan_post db p σ').2.
Proof.
  intros Hl. unfold scan_post.
  destruct (match username p with Some (Some _) => _ | _ => false end); [done|].
  destruct (postbody p) as [[content_text|]|]; [|done..].
  unfold scan_content.
  replace (set_day None (set_month None None σ))
    with (set_day None (set_month None None σ')); [done|].
  unfold set_day, set_month. cbn. by rewrite Hl.
Qed.

Lemma scan_posts_same_dict (posts : list post) (σ σ' : env) :
  local_yahrtzeits σ = local_yahrtzeits σ' →
  local_yahrtzeits (for_each (scan_post db) posts σ).1
  = local_yahrtzeits (for_each (scan_post db) posts σ').1
  ∧ (for_each (scan_post db) posts σ).2 = (for_each (scan_post db) posts σ').2.
Proof.
  revert σ σ'. induction posts as [|p posts IH]; intros σ σ' Hl; cbn [for_each]; [done|].
  unfold bind. destruct (scan_post_same_dict p σ σ' Hl) as [Hl' Hr].
  destruct (scan_post db p σ) as [σ1 r1], (scan_post db p σ') as [σ1' r1'].
  cbn [fst snd] in *. subst r1'. destruct r1 as [[]|e]; [by apply IH | done].
Qed.

Lemma scan_post_no_raise (p : post) (σ : env) :
  raises_at p = false → (scan_post db p σ).2 = Ok tt.
Proof.
  unfold raises_at, other_author, scan_post.
  destruct (match username p with Some (Some _) => _ | _ => false end); [done|].
  destruct (postbody p) as [[content_text|]|]; [|done..].
  intros _. apply scan_content_never_raises.
Qed.

(** The dictionary after the posts [posts], started from the variables
    [σ], is the dictionary of [σ] followed by what the posts give from the
    empty one. *)
Lemma scan_posts_dict (posts : list post) (σ : env) :
  local_yahrtzeits (for_each (scan_post db) posts σ).1
  = dict_append (local_yahrtzeits σ)
      (local_yahrtzeits (for_each (scan_post db) posts empty_env).1).
Proof.
  assert (Hσ : σ = frame (local_yahrtzeits σ) (set_local ∅ σ)).
  { unfold frame, set_local. cbn. rewrite dict_append_empty_r. by destruct σ. }
  rewrite Hσ at 1. rewrite scan_posts_frame. cbn [fst frame local_yahrtzeits set_local].
  f_equal. by apply scan_posts_same_dict.
Qed.

(** X6.  When no post of [posts1] makes line 64 raise, the dictionary of a
    page with the posts [posts1 ++ posts2] is the dictionary of [posts1]
    followed, key by key, by the dictionary of [posts2]: each post is
    scanned on its own. *)
Theorem fetch_forum_page_posts_app (posts1 posts2 : list post) :
  Forall (fun p => raises_at p = false) posts1 →
  fetch_forum_page db (Response 200 (posts1 ++ posts2))
  = dict_append (fetch_forum_page db (Response 200 posts1))
      (fetch_forum_page db (Response 200 posts2)).
Proof.
  intros Hok. unfold fetch_forum_page. cbn [Z.eqb Pos.eqb negb].
  rewrite for_each_app.
  assert (Hr : (for_each (scan_post db) posts1 empty_env).2 = Ok tt).
  { apply for_each_ok_Forall. eapply Forall_impl; [exact Hok|].
    intros p Hp σ. by apply scan_post_no_raise. }
  destruct (for_each (scan_post db) posts1 empty_env) as [σ1 r1].
  cbn [snd] in Hr. subst r1. cbn [fst]. apply scan_posts_dict.
Qed.

(** X7.  Posts added at the end of a page never remove or reorder what the
    page had: under every key, the list of the shorter page is the
    beginning of the list of the longer one. *)
Theorem fetch_forum_page_posts_prefix (posts1 posts2 : list post) (k : key)
    (l : list entry) :
  fetch_forum_page db (Response 200 posts1) !! k = Some l →
  ∃ l', fetch_forum_page db (Response 200 (posts1 ++ posts2)) !! k = Some (l ++ l').
Proof.
  unfold key in *. unfold fetch_forum_page. cbn [Z.eqb Pos.eqb negb].
  rewrite for_each_app.
  destruct (for_each (scan_post db) posts1 empty_env) as [σ1 [[]|e]]; cbn [fst].
  - intros Hl. rewrite scan_posts_dict, dict_append_lookup, Hl.
    destruct (local_yahrtzeits (for_each (scan_post db) posts2 empty_env).1 !! k)
      as [l'|]; [by exists l' | exists []; by rewrite app_nil_r].
  - intros Hl. exists []. by rewrite app_nil_r.
Qed.
End Posts.

Lemma fetch_forum_page_posts_app_witness :
  fetch_forum_page ucd_excerpt (Response 200 ([POST_20_TISHREI] ++ [POST_DAY_31]))
  = dict_append (fetch_forum_page ucd_excerpt (Response 200 [POST_20_TISHREI]))
      (fetch_forum_page ucd_excerpt (Response 200 [POST_DAY_31])).
Proof.
  apply (fetch_forum_page_posts_app ucd_excerpt [POST_20_TISHREI] [POST_DAY_31]).
  repeat constructor.
Defined.

Lemma fetch_forum_page_posts_prefix_witness :
  ∃ l', fetch_forum_page ucd_excerpt
          (Response 200 ([POST_20_TISHREI] ++ [POST_20_TISHREI])) !! (Some 7, 20)
        = Some ([ENTRY_PLAIN] ++ l').
Proof.
  apply (fetch_forum_page_posts_prefix ucd_excerpt [POST_20_TISHREI] [POST_20_TISHREI]).
  vm_compute. reflexivity.
Defined.

(** ** Posts and pages that give nothing *)

Section Skipped.
Variable db : UnicodeData.

Lemma scan_post_passed_over (p : post) (σ : env) :
  passed_over p = true → scan_post db p σ = (σ, Ok tt).
Proof.
  unfold passed_over, other_author, scan_post.
  destruct (match username p with Some (Some _) => _ | _ => false end); [done|].
  cbn [orb]. intros H%bool_decide_eq_true. by rewrite H.
Qed.

Lemma scan_posts_filter (posts : list post) (σ : env) :
  for_each (scan_post db) posts σ
  = for_each (scan_post db) (List.filter (fun p => negb (passed_over p)) posts) σ.
Proof.
  revert σ. induction posts as [|p posts IH]; intros σ; cbn [for_each List.filter]; [done|].
  destruct (passed_over p) eqn:Hp; cbn [negb for_each]; unfold bind.
  - rewrite scan_post_passed_over by done. apply IH.
  - destruct (scan_post db p σ) as [σ' [[]|e]]; [apply IH | done].
Qed.

(** X8.  The posts of other authors and the posts without [div.content]
    have no part in the result: a page gives what it gives without them.
    In particular such a post never raises, also when it has no
    [div.postbody]. *)
Theorem passed_over_posts_do_not_matter (status : Z) (posts : list post) :
  fetch_forum_page db (Response status posts)
  = fetch_forum_page db
      (Response status (List.filter (fun p => negb (passed_over p)) posts)).
Proof.
  unfold fetch_forum_page. destruct (negb (status =? 200)); [done|].
  by rewrite scan_posts_filter.
Qed.

Lemma merge_result_empty (data : gmap (option Z * Z) (list entry)) :
  merge_result data (Ok ∅) = data.
Proof. cbn [merge_result]. apply map_fold_empty. Qed.

(** X9.  A page whose status is not 200 gives the empty dictionary, and a
    unit that gave the empty dictionary leaves no trace in what [main]
    writes out: the result is the one of the other units. *)
Theorem failed_status_contributes_nothing (status : Z) (posts : list post)
    (results1 results2 : list (result (gmap (option Z * Z) (list entry)))) :
  status ≠ 200 →
  fetch_forum_page db (Response status posts) = ∅
  ∧ aggregate (results1 ++ Ok (fetch_forum_page db (Response status posts)) :: results2)
    = aggregate (results1 ++ results2).
Proof.
  intros Hs. assert (Hempty : fetch_forum_page db (Response status posts) = ∅).
  { unfold fetch_forum_page. apply Z.eqb_neq in Hs. by rewrite Hs. }
  split; [done|]. rewrite Hempty. unfold aggregate, merge_results.
  rewrite !fold_left_app. cbn [fold_left]. by rewrite merge_result_empty.
Qed.
End Skipped.

Lemma failed_status_contributes_nothing_witness :
  fetch_forum_page ucd_excerpt (Response 404 [POST_20_TISHREI]) = ∅
  ∧ aggregate ([] ++ Ok (fetch_forum_page ucd_excerpt (Response 404 [POST_20_TISHREI]))
                  :: RESULTS_SAMPLE)
    = aggregate ([] ++ RESULTS_SAMPLE).
Proof.
  apply (failed_status_contributes_nothing ucd_excerpt 404 [POST_20_TISHREI] []
           RESULTS_SAMPLE).
  discriminate.
Defined.

(** ** What every record of a page is like *)

Section Records.
Variable db : UnicodeData.

Lemma scan_line_records (line : str) (σ : env) :
  records_inv σ → records_inv (scan_line db line σ).1.
Proof.
  intros [Hpref Hrec].
  destruct (scan_line_cases db line σ)
    as [(mt & m & Hh & Hf & Hm & ->)|[(_ & Hn & ->)|(_ & _ & [-> | ->])]];
    cbn [fst]; try done.
  - split; [apply header_env_pref; by apply found_alias_in_line|].
    unfold header_env. by case_bool_decide.
  - split; [done|]. cbn [local_yahrtzeits set_local]. intros k l.
    rewrite extend_key_lookup. unfold key in *. case_decide as Hk; [|apply Hrec].
    intros [= <-]. split; [intros Hnil%app_eq_nil; by destruct Hnil|].
    intros e [He|He]%elem_of_app.
    + match type of He with _ ∈ default [] ?o => destruct o as [l0|] eqn:E end;
        cbn [default] in He.
      * by apply (Hrec _ _ E).
      * by apply elem_of_nil in He.
    + apply list_elem_of_singleton in He as ->. done.
Qed.

Lemma scan_post_records (p : post) (σ : env) :
  records_inv σ → records_inv (scan_post db p σ).1.
Proof.
  intros Hσ. unfold scan_post.
  destruct (match username p with Some (Some _) => _ | _ => false end); [done|].
  destruct (postbody p) as [[content_text|]|]; [|done..].
  unfold scan_content. apply for_each_inv.
  - intros block σ' Hσ'. unfold scan_block. apply for_each_inv; [|done].
    intros line σ'' Hσ''. unfold bind, ret.
    pose proof (scan_line_records line σ'' Hσ'') as H.
    by destruct (scan_line db line σ'') as [σ3 [b|e]].
  - destruct Hσ as [_ Hrec]. split; [done | exact Hrec].
Qed.

(** X10.  In the dictionary a page gives, no key has an empty list, and
    every record has [adar_pref] [None]: the scan never records a
    leap-month half. *)
Theorem fetched_lists_nonempty_pref_none (page : fetched) (k : key) (l : list entry) :
  fetch_forum_page db page !! k = Some l →
  l ≠ [] ∧ ∀ e, e ∈ l → adar_pref e = None.
Proof.
  assert (Hempty : records_inv empty_env).
  { split; [done|]. intros k' l'. cbn [local_yahrtzeits empty_env].
    by rewrite lookup_empty. }
  assert (Hinv : ∀ σ, records_inv σ → ∀ k l, local_yahrtzeits σ !! k = Some l →
            l ≠ [] ∧ ∀ e, e ∈ l → adar_pref e = None) by (intros σ [_ H]; exact H).
  unfold fetch_forum_page. apply Hinv.
  destruct page as [e|status posts]; [exact Hempty|].
  destruct (negb (status =? 200)); [exact Hempty|].
  apply (for_each_inv records_inv (scan_post db) posts scan_post_records _ Hempty).
Qed.
End Records.

Lemma fetched_lists_nonempty_pref_none_witness :
  [ENTRY_PLAIN] ≠ [] ∧ ∀ e, e ∈ [ENTRY_PLAIN] → adar_pref e = None.
Proof.
  apply (fetched_lists_nonempty_pref_none ucd_excerpt PAGE_ADAR_A (Some 12, 20)).
  vm_compute. reflexivity.
Defined.

(** ** More on the merge and the de-duplication *)

Lemma values_at_app (k : key)
    (results1 results2 : list (result (gmap (option Z * Z) (list entry)))) :
  values_at k (results1 ++ results2) = values_at k results1 ++ values_at k results2.
Proof. unfold values_at. apply omap_app. Qed.

Lemma values_at_Ok (k : key) (d : gmap (option Z * Z) (list entry))
    (results : list (result (gmap (option Z * Z) (list entry)))) :
  values_at k (Ok d :: results)
  = match d !! k with
    | Some v => v :: values_at k results
    | None => values_at k results
    end.
Proof. unfold values_at. cbn [omap list_omap]. by destruct (d !! k). Qed.

Lemma aggregate_eq_values
    (results results' : list (result (gmap (option Z * Z) (list entry)))) :
  (∀ k, concat (values_at k results) = concat (values_at k results')
        ∧ (values_at k results = [] ↔ values_at k results' = [])) →
  aggregate results = aggregate results'.
Proof.
  intros H. apply map_eq. intros k. rewrite !aggregate_lookup. f_equal.
  unfold merged_at. destruct (H k) as [Hc Hn].
  destruct (values_at k results) as [|v vs], (values_at k results') as [|v' vs'];
    [done | | | by rewrite Hc].
  - pose proof (proj1 Hn eq_refl). done.
  - pose proof (proj2 Hn eq_refl). done.
Qed.

Lemma ordered_unique_id (seen : gset (str * option Z)) (l : list entry) :
  NoDup (pair_of <$> l) → (∀ e, e ∈ l → pair_of e ∉ seen) →
  ordered_unique seen l = l.
Proof.
  revert seen. induction l as [|e l IH]; intros seen Hnd Hseen; [done|].
  cbn [ordered_unique]. fold (pair_of e).
  cbn [fmap list_fmap] in Hnd. apply NoDup_cons in Hnd as [Hne Hnd].
  rewrite decide_False by (apply Hseen; by left).
  f_equal. apply IH; [done|]. intros e' He'.
  rewrite elem_of_union, elem_of_singleton. intros [Heq|Hin].
  - apply Hne. rewrite <- Heq. by apply list_elem_of_fmap_2.
  - by apply (Hseen e'); [right|].
Qed.

Lemma aggregate_single (d : gmap (option Z * Z) (list entry)) :
  aggregate [Ok d] = ordered_unique ∅ <$> d.
Proof.
  apply map_eq. intros k. unfold aggregate. rewrite !lookup_fmap, merge_results_lookup.
  unfold merged_at. rewrite values_at_Ok. unfold key in *.
  destruct (d !! k) as [v|]; cbn; [by rewrite app_nil_r | done].
Qed.

(** X11.  What [main] writes out holds nothing that no unit gave: a record
    under a key is a record that some unit has under that key, and a key is
    present exactly when some unit has it. *)
Theorem aggregate_only_from_units
    (results : list (result (gmap (option Z * Z) (list entry)))) (k : key) :
  (∀ l e, aggregate results !! k = Some l → e ∈ l →
          ∃ d v, Ok d ∈ results ∧ d !! k = Some v ∧ e ∈ v)
  ∧ (is_Some (aggregate results !! k) ↔ ∃ d, Ok d ∈ results ∧ is_Some (d !! k)).
Proof.
  assert (Hvals : ∀ v, v ∈ values_at k results ↔ ∃ d, Ok d ∈ results ∧ d !! k = Some v).
  { intros v. unfold values_at. rewrite list_elem_of_omap. split.
    - intros ([d|e] & Hr & Hv); [eauto | done].
    - intros (d & Hd & Hv). by exists (Ok d). }
  split.
  - intros l e. unfold aggregate. rewrite lookup_fmap, merge_results_lookup.
    unfold merged_at.
    destruct (values_at k results) as [|v0 vs] eqn:E; [done|].
    cbn [fmap option_fmap option_map]. intros [= <-] He.
    apply ordered_unique_elem in He as [He _].
    change (v0 ++ concat vs) with (concat (v0 :: vs)) in He.
    apply list_elem_of_In, in_concat in He as (v & Hv & He).
    apply list_elem_of_In in Hv.
    apply Hvals in Hv as (d & Hd & Hv). exists d, v.
    split_and!; [done..|]. by apply list_elem_of_In.
  - rewrite aggregate_lookup. unfold merged_at. split.
    + destruct (values_at k results) as [|v0 vs] eqn:E; [by intros [? ?]|].
      intros _. destruct (proj1 (Hvals v0)) as (d & Hd & Hv); [by left|].
      exists d. by rewrite Hv.
    + intros (d & Hd & [v Hv]).
      assert (Hin : v ∈ values_at k results) by (apply Hvals; eauto).
      destruct (values_at k results); [by apply elem_of_nil in Hin | by eexists].
Qed.

Lemma aggregate_only_from_units_witness :
  ∃ d v, Ok d ∈ RESULTS_SAMPLE ∧ d !! (Some 7, 20) = Some v ∧ ENTRY_PLAIN ∈ v.
Proof.
  apply (proj1 (aggregate_only_from_units RESULTS_SAMPLE (Some 7, 20)) [ENTRY_PLAIN]).
  - vm_compute. reflexivity.
  - apply list_elem_of_In. cbn. tauto.
Defined.

(** X12.  Merging what [main] wrote out once more changes nothing: a list
    without a repeated pair is left as it is by the loop of lines 137-143,
    and the lists written out are such lists. *)
Theorem aggregate_again_is_identity
    (results : list (result (gmap (option Z * Z) (list entry)))) :
  (∀ l : list entry, NoDup (pair_of <$> l) → ordered_unique ∅ l = l)
  ∧ aggregate [Ok (aggregate results)] = aggregate results.
Proof.
  assert (Hid : ∀ l : list entry, NoDup (pair_of <$> l) → ordered_unique ∅ l = l).
  { intros l Hl. apply ordered_unique_id; [done|]. intros e _. set_solver. }
  split; [exact Hid|].
  rewrite aggregate_single. apply map_eq. intros k.
  unfold aggregate. rewrite !lookup_fmap.
  destruct (merge_results results !! k) as [l|]; [|done].
  cbn. f_equal. apply Hid, ordered_unique_NoDup.
Qed.

Lemma aggregate_again_is_identity_witness :
  ordered_unique ∅ [ENTRY_PLAIN; ENTRY_FIRST] = [ENTRY_PLAIN; ENTRY_FIRST].
Proof.
  apply (proj1 (aggregate_again_is_identity [])).
  repeat constructor; rewrite ?elem_of_cons, ?elem_of_nil; cbn; intuition discriminate.
Defined.

Lemma aggregate_split_unit (a b : gmap (option Z * Z) (list entry))
    (results1 results2 : list (result (gmap (option Z * Z) (list entry)))) :
  aggregate (results1 ++ Ok (dict_append a b) :: results2)
  = aggregate (results1 ++ Ok a :: Ok b :: results2).
Proof.
  apply aggregate_eq_values. intros k.
  rewrite !values_at_app, !values_at_Ok, dict_append_lookup. unfold key in *.
  destruct (a !! k) as [x|], (b !! k) as [y|];
    rewrite ?concat_app; cbn [concat]; rewrite <- ?app_assoc; split; try done;
    split; intros H%app_eq_nil; destruct H; done.
Qed.

Section SplitPage.
Variable db : UnicodeData.

(** X13.  Giving the posts of one page to two units, the first with the
    posts before some point and the second with the rest, changes nothing
    in what [main] writes out, when no post of the first part makes line
    64 raise. *)
Theorem page_split_in_two_units (posts1 posts2 : list post)
    (results1 results2 : list (result (gmap (option Z * Z) (list entry)))) :
  Forall (fun p => raises_at p = false) posts1 →
  aggregate (results1 ++ Ok (fetch_forum_page db (Response 200 (posts1 ++ posts2)))
               :: results2)
  = aggregate (results1 ++ Ok (fetch_forum_page db (Response 200 posts1))
                 :: Ok (fetch_forum_page db (Response 200 posts2)) :: results2).
Proof.
  intros Hok. rewrite <- aggregate_split_unit. do 3 f_equal.
  unfold fetch_forum_page. cbn [Z.eqb Pos.eqb negb]. rewrite for_each_app.
  assert (Hr : (for_each (scan_post db) posts1 empty_env).2 = Ok tt).
  { apply for_each_ok_Forall. eapply Forall_impl; [exact Hok|].
    intros p Hp σ. by apply scan_post_no_raise. }
  destruct (for_each (scan_post db) posts1 empty_env) as [σ1 r1].
  cbn [snd] in Hr. subst r1. cbn [fst]. f_equal. apply scan_posts_dict.
Qed.
End SplitPage.

Lemma page_split_in_two_units_witness :
  aggregate ([] ++ Ok (fetch_forum_page ucd_excerpt
                         (Response 200 ([POST_20_TISHREI] ++ [POST_DAY_31]))) :: [])
  = aggregate ([] ++ Ok (fetch_forum_page ucd_excerpt (Response 200 [POST_20_TISHREI]))
                 :: Ok (fetch_forum_page ucd_excerpt (Response 200 [POST_DAY_31])) :: []).
Proof.
  apply (page_split_in_two_units ucd_excerpt [POST_20_TISHREI] [POST_DAY_31] [] []).
  repeat constructor.
Defined.

(** ** The normalizer on decomposed text *)

Section MarkRemoval.
Variable db : UnicodeData.

Lemma filter_insert_mark (f : char → bool) (c : char) (racc : str) :
  f c = false → List.filter f (insert_mark db c racc) = List.filter f racc.
Proof.
  intros Hc. induction racc as [|p r IH]; cbn [insert_mark List.filter].
  - by rewrite Hc.
  - destruct (combining db c <? combining db p)%N; cbn [List.filter].
    + by rewrite IH.
    + by rewrite Hc.
Qed.

Lemma filter_reorder_fold (f : char → bool) (s racc : str) :
  (∀ c, In c s → combining db c ≠ 0%N → f c = false) →
  List.filter f (fold_left (reorder_step db) s racc)
  = rev (List.filter f s) ++ List.filter f racc.
Proof.
  revert racc. induction s as [|c s IH]; intros racc Hs; cbn [fold_left List.filter rev].
  - done.
  - rewrite IH by (intros; apply Hs; [by right | done]).
    unfold reorder_step. destruct (combining db c =? 0)%N eqn:E.
    + cbn [List.filter]. destruct (f c); cbn [rev]; by rewrite <- ?app_assoc.
    + apply N.eqb_neq in E. rewrite filter_insert_mark by (apply Hs; [by left | done]).
      by rewrite (Hs c) by (by left || done).
Qed.

(** X14.  What [remove_nikud] returns has no character of category [Mn].
    On a string whose characters have no decomposition and whose characters
    of non-zero combining class are all of category [Mn] (Hebrew letters
    with their points), it returns the string without those characters, the
    others in their order. *)
Theorem remove_nikud_deletes_marks (s : str) :
  (∀ c, In c (remove_nikud db s) → category_Mn db c = false)
  ∧ ((∀ c, In c s → decomposition db c = [c]) →
     (∀ c, In c s → combining db c ≠ 0%N → category_Mn db c = true) →
     remove_nikud db s = List.filter (fun c => negb (category_Mn db c)) s).
Proof.
  split.
  - intros c [_ Hc%negb_true_iff]%filter_In. done.
  - intros Hdec Hmarks. unfold remove_nikud, normalize_NFD, canonical_order.
    rewrite flat_map_fixed by done. rewrite List.filter_rev.
    rewrite filter_reorder_fold.
    + by rewrite app_nil_r, rev_involutive.
    + intros c Hc Hne. by rewrite (Hmarks c Hc Hne).
Qed.
End MarkRemoval.

Example rabbi_pointed_unpointed :
  remove_nikud ucd_excerpt RABBI_POINTED = NAME_LINE.
Proof. reflexivity. Qed.

Lemma remove_nikud_deletes_marks_witness :
  remove_nikud ucd_excerpt RABBI_POINTED
  = List.filter (fun c => negb (category_Mn ucd_excerpt c)) RABBI_POINTED.
Proof.
  apply (proj2 (remove_nikud_deletes_marks ucd_excerpt RABBI_POINTED)).
  - intros c _. reflexivity.
  - intros c Hc Hne. cbn in Hc.
    repeat (destruct Hc as [<-|Hc];
            [first [reflexivity | exfalso; apply Hne; reflexivity]|]).
    destruct Hc.
Defined.

(** ** The keys of the dictionary written out *)

Example format_key_7_20 : format_key (Some 7, 20) = py "7_20".
Proof. reflexivity. Qed.

Example format_key_none : format_key (None, 5) = py "None_5".
Proof. reflexivity. Qed.

Lemma pretty_N_char_digit (x : N) :
  (48 ≤ Ascii.N_of_ascii (pretty_N_char x) ≤ 57)%N.
Proof. unfold pretty_N_char. repeat case_match; vm_compute; split; discriminate. Qed.

Lemma pretty_N_go_chars (x : N) (s : string) (a : Ascii.ascii) :
  In a (String.list_ascii_of_string (pretty_N_go x s)) →
  (48 ≤ Ascii.N_of_ascii a ≤ 57)%N ∨ In a (String.list_ascii_of_string s).
Proof.
  revert s. induction (N.lt_wf_0 x) as [x _ IH]; intros s.
  destruct (decide (x = 0%N)) as [->|Hx].
  - rewrite pretty_N_go_0. auto.
  - rewrite pretty_N_go_step by lia. intros Ha.
    apply IH in Ha; [|apply N.div_lt; lia].
    destruct Ha as [Ha|Ha]; [by left|].
    cbn [String.list_ascii_of_string In] in Ha.
    destruct Ha as [<-|Ha]; [left; apply pretty_N_char_digit | by right].
Qed.

Lemma str_of_int_chars (z : Z) (c : char) : In c (str_of_int z) → numeric_char c.
Proof.
  unfold str_of_int. intros (a & <- & Ha)%in_map_iff. unfold numeric_char.
  assert (HN : ∀ n : N, In a (String.list_ascii_of_string (pretty n)) →
            (48 ≤ Ascii.N_of_ascii a ≤ 57)%N).
  { intros n. unfold pretty, pretty_N. case_decide as Hn.
    - cbn. intros [<-|[]]. vm_compute. split; discriminate.
    - intros [Hd|[]]%pretty_N_go_chars. done. }
  destruct z as [|p|p]; unfold pretty, pretty_Z in Ha.
  - cbn in Ha. destruct Ha as [<-|[]]. left. vm_compute. split; discriminate.
  - left. by apply (HN (N.pos p)).
  - cbn [String.append String.list_ascii_of_string In] in Ha.
    destruct Ha as [<-|Ha]; [by right | left; by apply (HN (N.pos p))].
Qed.

Lemma str_of_int_inj (z1 z2 : Z) : str_of_int z1 = str_of_int z2 → z1 = z2.
Proof.
  unfold str_of_int. intros H.
  apply (inj pretty).
  rewrite <- (String.string_of_list_ascii_of_string (pretty z1)),
          <- (String.string_of_list_ascii_of_string (pretty z2)).
  f_equal. revert H.
  generalize (String.list_ascii_of_string (pretty z1)),
             (String.list_ascii_of_string (pretty z2)).
  induction l as [|a l IH]; intros [|b l']; cbn [map]; try done.
  intros [= Hab Hl]. f_equal; [|by apply IH].
  rewrite <- (Ascii.ascii_N_embedding a), <- (Ascii.ascii_N_embedding b).
  by rewrite Hab.
Qed.

Lemma app_underscore_inj (a a' b b' : str) :
  ¬ In UNDERSCORE a → ¬ In UNDERSCORE a' →
  a ++ UNDERSCORE :: b = a' ++ UNDERSCORE :: b' → a = a' ∧ b = b'.
Proof.
  revert a'. induction a as [|x a IH]; intros [|x' a'] Ha Ha'; cbn [app].
  - by intros [= ->].
  - intros [= <- _]. destruct Ha'. by left.
  - intros [= -> _]. destruct Ha. by left.
  - intros [= -> H]. destruct (IH a') as [-> ->]; [|  |done|done].
    + intros Hin. apply Ha. by right.
    + intros Hin. apply Ha'. by right.
Qed.

Lemma month_text_no_underscore (m : option Z) :
  ¬ In UNDERSCORE (match m with Some m => str_of_int m | None => py "None" end).
Proof.
  destruct m as [m|].
  - intros [H|H]%str_of_int_chars; unfold UNDERSCORE in H; lia.
  - vm_compute. intuition discriminate.
Qed.

Lemma format_key_inj (k1 k2 : key) : format_key k1 = format_key k2 → k1 = k2.
Proof.
  destruct k1 as [m1 d1], k2 as [m2 d2]. unfold format_key. cbn [fst snd].
  intros [Hm Hd%str_of_int_inj]%app_underscore_inj;
    [|apply month_text_no_underscore..].
  subst d2. f_equal. destruct m1 as [m1|], m2 as [m2|]; [|exfalso..|done].
  - by apply str_of_int_inj in Hm as ->.
  - assert (Hin : In 78%N (str_of_int m1)) by (rewrite Hm; vm_compute; tauto).
    apply str_of_int_chars in Hin as [H|H]; lia.
  - assert (Hin : In 78%N (str_of_int m2)) by (rewrite <- Hm; vm_compute; tauto).
    apply str_of_int_chars in Hin as [H|H]; lia.
Qed.

Global Instance format_key_Inj : Inj (=) (=) format_key.
Proof. intros k1 k2. apply format_key_inj. Qed.

(** X15.  Two different keys are never written out under the same name, so
    the dictionary written out has, under the name of each key, the list
    that [data] has under that key, and nothing else. *)
Theorem output_keys_distinct (data : gmap (option Z * Z) (list entry)) :
  (∀ k1 k2 : key, format_key k1 = format_key k2 → k1 = k2)
  ∧ (∀ k : key, output_dict data !! format_key k = data !! k)
  ∧ (∀ (name : str) (l : list entry),
       output_dict data !! name = Some l →
       ∃ k : key, name = format_key k ∧ data !! k = Some l).
Proof.
  split; [exact format_key_inj|]. split.
  - intros k. unfold output_dict. apply (lookup_kmap format_key).
  - intros name l. unfold output_dict. rewrite (lookup_kmap_Some format_key).
    intros (k & -> & Hk). eauto.
Qed.

Lemma output_keys_distinct_witness :
  (Some 7, 20) = (Some 7, 20)
  ∧ ∃ k : key, py "7_20" = format_key k
               ∧ ({[ (Some 7, 20) := [ENTRY_PLAIN] ]} : gmap (option Z * Z) (list entry)) !! k
                 = Some [ENTRY_PLAIN].
Proof.
  split.
  - apply (proj1 (output_keys_distinct ∅) (Some 7, 20) (Some 7, 20)). reflexivity.
  - apply (proj2 (proj2 (output_keys_distinct {[ (Some 7, 20) := [ENTRY_PLAIN] ]}))).
    vm_compute. reflexivity.
Defined.

(** ** The lines of a block *)

Lemma lstrip_head (s : str) :
  match lstrip s with [] => True | c :: _ => isspace c = false end.
Proof.
  induction s as [|c s IH]; cbn [lstrip]; [done|].
  destruct (isspace c) eqn:E; [done | by rewrite E].
Qed.

Lemma lstrip_id (s : str) :
  match s with [] => True | c :: _ => isspace c = false end → lstrip s = s.
Proof. destruct s as [|c s]; cbn [lstrip]; [done|]. by intros ->. Qed.

Lemma lstrip_lstrip (s : str) : lstrip (lstrip s) = lstrip s.
Proof. apply lstrip_id, lstrip_head. Qed.

Lemma lstrip_snoc (r : str) (c : char) :
  isspace c = false → ∃ u, lstrip (r ++ [c]) = u ++ [c].
Proof.
  intros Hc. induction r as [|x r IH]; cbn [app lstrip].
  - rewrite Hc. by exists [].
  - destruct (isspace x); [done|]. by exists (x :: r).
Qed.

Lemma lstrip_In (s : str) (x : char) : In x (lstrip s) → In x s.
Proof.
  induction s as [|c s IH]; cbn [lstrip]; [done|].
  destruct (isspace c); [intros H; right; by apply IH | done].
Qed.

Lemma strip_In (s : str) (x : char) : In x (strip s) → In x s.
Proof.
  unfold strip, rstrip. rewrite <- in_rev. intros H%lstrip_In.
  rewrite <- in_rev in H. by apply lstrip_In.
Qed.

Lemma strip_head (s : str) :
  match strip s with [] => True | c :: _ => isspace c = false end.
Proof.
  unfold strip, rstrip. pose proof (lstrip_head s) as Hh.
  destruct (lstrip s) as [|c t]; [done|].
  cbn [rev]. destruct (lstrip_snoc (rev t) c Hh) as [u Hu].
  unfold char in *. rewrite Hu, rev_app_distr. done.
Qed.

Lemma strip_strip (s : str) : strip (strip s) = strip s.
Proof.
  unfold strip at 1. rewrite (lstrip_id (strip s)) by apply strip_head.
  unfold strip, rstrip. by rewrite rev_involutive, lstrip_lstrip.
Qed.

Lemma split_from_char_pieces (c : char) (cur s : str) :
  ¬ In c cur → Forall (fun piece => ¬ In c piece) (split_from [c] 0 cur s).
Proof.
  revert cur. induction s as [|x s IH]; intros cur Hcur; cbn [split_from].
  - constructor; [by rewrite <- in_rev | constructor].
  - cbn [startswith length pred]. rewrite andb_true_r.
    destruct (c =? x)%N eqn:E.
    + constructor; [by rewrite <- in_rev | apply IH; intros []].
    + apply IH. apply N.eqb_neq in E. intros [->|H]; [done | by apply Hcur].
Qed.

(** X16.  Every line the scan of a block reads is non-empty, has no white
    space at either end (trimming it again changes nothing) and holds no
    line break. *)
Theorem block_lines_trimmed (block line : str) :
  In line (block_lines block) →
  line ≠ [] ∧ strip line = line ∧ ¬ In NEWLINE line.
Proof.
  unfold block_lines. intros (raw & <- & [Hraw Hne]%filter_In)%in_map_iff.
  split_and!.
  - by destruct (strip raw).
  - apply strip_strip.
  - intros Hin%strip_In.
    pose proof (split_from_char_pieces NEWLINE [] block (fun H => H)) as Hp.
    rewrite Forall_forall in Hp. apply (Hp raw); [|done].
    by apply list_elem_of_In.
Qed.

Lemma block_lines_trimmed_witness :
  NAME_LINE ≠ [] ∧ strip NAME_LINE = NAME_LINE ∧ ¬ In NEWLINE NAME_LINE.
Proof.
  apply (block_lines_trimmed
           (HEADER_20_TISHREI ++ [NEWLINE; SPACE; NEWLINE; SPACE] ++ NAME_LINE ++ [SPACE])
           NAME_LINE).
  vm_compute. tauto.
Defined.

(** ** Lines that begin with the primary prefix *)

Section PrimaryPrefix.
Variable db : UnicodeData.

(** X17.  A line that, once cleaned, begins with [רבי ] is never taken for
    a header, whatever else it holds: it leaves the three loop variables
    as they are, and it appends one record under the date in force, or
    nothing when no date is in force. *)
Theorem primary_prefix_line_keeps_date (line : str) (σ : env) :
  startswith (clean line) RABBI = true →
  current_day (scan_line db line σ).1 = current_day σ
  ∧ current_month (scan_line db line σ).1 = current_month σ
  ∧ default_pref (scan_line db line σ).1 = default_pref σ
  ∧ local_yahrtzeits (scan_line db line σ).1
    = if truthy_day (current_day σ)
      then extend_key (name_key σ) [name_entry db (clean line) σ] (local_yahrtzeits σ)
      else local_yahrtzeits σ.
Proof.
  intros Hr.
  assert (Hh : is_header (clean line) = false).
  { unfold is_header. by rewrite Hr, andb_false_r. }
  destruct (truthy_day (current_day σ)) eqn:Hd.
  - rewrite scan_line_name; [done..|].
    unfold is_name, name_prefixes. cbn [existsb]. fold RABBI. by rewrite Hd, Hr.
  - rewrite scan_line_ignored; [done..|]. unfold is_name. by rewrite Hd.
Qed.
End PrimaryPrefix.

Lemma primary_prefix_line_keeps_date_witness :
  current_day (scan_line ucd_excerpt NAME_LINE_WITH_MONTH
                 (set_day (Some 20) (set_month (Some 7) None empty_env))).1 = Some 20
  ∧ current_month (scan_line ucd_excerpt NAME_LINE_WITH_MONTH
                     (set_day (Some 20) (set_month (Some 7) None empty_env))).1 = Some 7
  ∧ default_pref (scan_line ucd_excerpt NAME_LINE_WITH_MONTH
                    (set_day (Some 20) (set_month (Some 7) None empty_env))).1 = None
  ∧ local_yahrtzeits (scan_line ucd_excerpt NAME_LINE_WITH_MONTH
                        (set_day (Some 20) (set_month (Some 7) None empty_env))).1
    = {[ (Some 7, 20) := [ {| text := NAME_LINE_WITH_MONTH; adar_pref := None |} ] ]}.
Proof.
  apply (primary_prefix_line_keeps_date ucd_excerpt NAME_LINE_WITH_MONTH
           (set_day (Some 20) (set_month (Some 7) None empty_env))).
  reflexivity.
Defined.
